(** * ungx: a shallow embedding of the gx-to-vendor conversion tool

    Two program variants exist in the repository:
    - [main.go], the simple mode: vendors every non-clashing package under
      [vendor/] and rewrites bare [gx/ipfs/<hash>/<dir>] strings;
    - the embedding mode ([unnamed/part_000]): clashing packages are embedded
      under [gxlibs/ipfs/<hash>], gx based packages under [gxlibs/<path>],
      plain ones vendored; references are rewritten as quoted tokens, an
      optional [--fork] renames the root import path and [// import "..."]
      markers are stripped.

    Byte slices are modelled as [string] (one [ascii] per byte). The file
    system, the network and the external tools are oracles. *)

From Stdlib Require Import String Ascii Bool List Arith Lia.
From stdpp Require Import base gmap strings list.

Open Scope string_scope.
#[local] Set Warnings "-register-all".
(* stdpp marks String.append [simpl never]; the proofs below compute with it *)
#[local] Arguments String.append : simpl nomatch.

(* ------------------------------------------------------------------ *)
(** ** Characters and small string helpers (Go's [s[n:]], [HasPrefix], ...) *)

Definition quote : ascii := "034"%char.
Definition newline : ascii := "010"%char.
Definition slash : ascii := "/"%char.

(** a double quote followed by [s] *)
Definition q (s : string) : string := String quote s.

(** [s] followed by a double quote *)
Definition qend (s : string) : string := s ++ String quote EmptyString.

Fixpoint has_char (a : ascii) (s : string) : bool :=
  match s with
  | EmptyString => false
  | String c s' => if ascii_dec c a then true else has_char a s'
  end.

Definition has_quote := has_char quote.

(** [s[n:]] (saturating at the end of the string) *)
Fixpoint drop (n : nat) (s : string) : string :=
  match n, s with
  | O, _ => s
  | S _, EmptyString => EmptyString
  | S n', String _ s' => drop n' s'
  end.

(** strings.HasPrefix(s, prefix) *)
Definition HasPrefix (s pre : string) : bool := String.prefix pre s.

(** strings.HasSuffix(s, suffix):
    [len(s) >= len(suffix) && s[len(s)-len(suffix):] == suffix] *)
Definition HasSuffix (s suf : string) : bool :=
  Nat.leb (String.length suf) (String.length s)
  && String.eqb (drop (String.length s - String.length suf) s) suf.

(* ------------------------------------------------------------------ *)
(** ** bytes.Replace(s, old, new, -1) *)

(** Scanner for a non-empty [old]: at each position, if [old] starts there,
    emit [new] and skip the rest of the match; [skip] counts the bytes of
    the current match still to be consumed. *)
Fixpoint replace_go (old new : string) (skip : nat) (s : string) : string :=
  match s with
  | EmptyString => EmptyString
  | String c s' =>
      match skip with
      | S k => replace_go old new k s'
      | O =>
          if String.prefix old s
          then new ++ replace_go old new (pred (String.length old)) s'
          else String c (replace_go old new 0 s')
      end
  end.

(** An empty [old] matches at the start and after every byte. *)
Fixpoint replace_empty (new s : string) : string :=
  match s with
  | EmptyString => new
  | String c s' => new ++ String c (replace_empty new s')
  end.

Definition bytes_Replace (s old new : string) : string :=
  match old with
  | EmptyString => replace_empty new s
  | String _ _ => replace_go old new 0 s
  end.

(** strings.Replace(s, old, new, 1), for a non-empty [old] *)
Fixpoint strings_Replace1 (s old new : string) : string :=
  match s with
  | EmptyString => EmptyString
  | String c s' =>
      if String.prefix old s then new ++ drop (String.length old) s
      else String c (strings_Replace1 s' old new)
  end.

(* ------------------------------------------------------------------ *)
(** ** regexp.MustCompile(`// import ".*"`).ReplaceAll(b, []byte{})

    [.] matches any byte but a newline and [.*] is greedy, so a match
    starting at [// import] and a double quote extends to the last double quote of the
    same line; matches are leftmost and do not overlap. *)

Definition marker_open : string := "// import " ++ String quote EmptyString.

(** index of the last double quote before the first newline of [s] *)
Fixpoint last_quote_line (s : string) : option nat :=
  match s with
  | EmptyString => None
  | String c s' =>
      if ascii_dec c newline then None
      else match last_quote_line s' with
           | Some n => Some (S n)
           | None => if ascii_dec c quote then Some 0 else None
           end
  end.

(** length of the regexp match starting at the head of [s], if any *)
Definition marker_match (s : string) : option nat :=
  if String.prefix marker_open s
  then match last_quote_line (drop (String.length marker_open) s) with
       | Some n => Some (String.length marker_open + S n)
       | None => None
       end
  else None.

Fixpoint strip_go (skip : nat) (s : string) : string :=
  match s with
  | EmptyString => EmptyString
  | String c s' =>
      match skip with
      | S k => strip_go k s'
      | O =>
          match marker_match s with
          | Some m => strip_go (pred m) s'
          | None => String c (strip_go 0 s')
          end
      end
  end.

Definition restrict_ReplaceAll (b : string) : string := strip_go 0 b.

(* ------------------------------------------------------------------ *)
(** ** Per-file rewriting (body of the filepath.Walk callback)

    A Go map is ranged in an unspecified order: [rewrite] is the list of
    (key, value) pairs in the order the range visits them for this file. *)

(** main.go, lines 104-107 *)
Definition rewrite_blob_simple (rewrite : list (string * string)) (oldblob : string)
  : string :=
  fold_left (fun newblob '(gxpath, gopath) => bytes_Replace newblob gxpath gopath)
    rewrite oldblob.

(** part_000, lines 162-164 *)
Definition rewrite_keys_embed (rewrite : list (string * string)) (oldblob : string)
  : string :=
  fold_left (fun newblob '(gxpath, gopath) => bytes_Replace newblob (q gxpath) (q gopath))
    rewrite oldblob.

(** part_000, lines 166-167 *)
Definition fork_subst (root fork : string) (blob : string) : string :=
  let b1 := bytes_Replace blob (q (root ++ "/")) (q (fork ++ "/")) in
  bytes_Replace b1 (q (qend root)) (q (qend fork)).

(** part_000, lines 161-169: the content written back for one .go file *)
Definition rewrite_blob_embed (rewrite : list (string * string)) (root fork : string)
  (oldblob : string) : string :=
  let newblob := rewrite_keys_embed rewrite oldblob in
  let newblob := if String.eqb fork "" then newblob else fork_subst root fork newblob in
  restrict_ReplaceAll newblob.

Example replace_ex1 : bytes_Replace "aXbXc" "X" "YY" = "aYYbYYc".
Proof. reflexivity. Qed.

Example replace_ex2 : bytes_Replace "aaa" "aa" "b" = "ba".
Proof. reflexivity. Qed.

Example replace_ex3 : bytes_Replace "ab" "" "-" = "-a-b-".
Proof. reflexivity. Qed.

Example strip_ex1 :
  restrict_ReplaceAll ("package p " ++ marker_open ++ "a/b" ++ String quote (String newline "x"))
  = "package p " ++ String newline "x".
Proof. reflexivity. Qed.

(* ------------------------------------------------------------------ *)
(** ** shouldEmbed (part_000, lines 186-213)

    Paths handed to filepath.Join are kept as the list of their
    components. The outside world is an oracle record. *)

Record probe_env := {
  (** http.Get(url): [None] is a transport error, [Some code] a response *)
  http_Get : string -> option nat;
  (** `go get -d <pkg>` run with GOPATH=<gopath> exits with status 0 *)
  go_get_ok : string -> string -> bool;
  (** os.Stat(filepath.Join(parts...)) returns a nil error *)
  os_Stat_ok : list string -> bool
}.

Definition http_StatusOK : nat := 200.

Definition raw_url (path : string) : string :=
  "https://" ++ strings_Replace1 path "github.com" "raw.githubusercontent.com"
  ++ "/master/package.json".

Definition shouldEmbed (env : probe_env) (gopath path : string) : bool :=
  if HasPrefix path "github.com/" then
    match http_Get env (raw_url path) with
    | None => true
    | Some code => Nat.eqb code http_StatusOK
    end
  else
    if go_get_ok env gopath (path ++ "/...") then
      if os_Stat_ok env [gopath; "src"; path; "package.json"] then true else false
    else true.

(* ------------------------------------------------------------------ *)
(** ** encoding/json into struct { Gx struct { Path `json:"dvcsimport"` } `json:"gx"` }

    The syntax check of json.Unmarshal is an oracle ([json_parse]); the
    decoding of the parsed value into the target struct is written out.
    A JSON object key selects a struct field by exact match, or else by
    the case-folding comparison encoding/json (fold.go) picks for the
    field's name; a value of the wrong type records an error but
    decoding goes on; null leaves the field as it is; a repeated key is
    decoded again into the same field. JSON keys are the unescaped bytes
    (UTF-8). *)

Inductive json :=
| JNull
| JBool (b : bool)
| JNum (lit : string)
| JStr (s : string)
| JArr (l : list json)
| JObj (fields : list (string * json)).

(** [b & caseMask], with [caseMask = ^byte(0x20)] *)
Definition caseMask (b : ascii) : ascii :=
  match b with Ascii b0 b1 b2 b3 b4 _ b6 b7 => Ascii b0 b1 b2 b3 b4 false b6 b7 end.

(** [b < utf8.RuneSelf] *)
Definition below_RuneSelf (b : ascii) : bool :=
  match b with Ascii _ _ _ _ _ _ _ b7 => negb b7 end.

Definition is_upper (b : ascii) : bool :=
  (65 <=? nat_of_ascii b)%nat && (nat_of_ascii b <=? 90)%nat.

(** the UTF-8 encodings of U+017F (long s) and U+212A (Kelvin sign);
    utf8.DecodeRune(t) returns one of these runes exactly when [t] starts
    with its encoding *)
Definition smallLongEss : string := String "197"%char (String "191"%char EmptyString).
Definition kelvin : string :=
  String "226"%char (String "132"%char (String "170"%char EmptyString)).

(** simpleLetterEqualFold(s, t): [s] is a field name made of ASCII
    letters only, none of them k or s *)
Fixpoint simpleLetterEqualFold (s t : string) : bool :=
  match s, t with
  | EmptyString, EmptyString => true
  | String b s', String tb t' =>
      if ascii_dec (caseMask b) (caseMask tb) then simpleLetterEqualFold s' t' else false
  | _, _ => false
  end.

(** equalFoldRight(s, t): [s] is an ASCII field name containing k or s;
    besides ASCII case, [t] may spell s as U+017F and k as U+212A *)
Fixpoint equalFoldRight (s t : string) : bool :=
  match s with
  | EmptyString => match t with EmptyString => true | String _ _ => false end
  | String sb s' =>
      match t with
      | EmptyString => false
      | String tb t' =>
          if below_RuneSelf tb then
            if ascii_dec sb tb then equalFoldRight s' t'
            else
              let sbUpper := caseMask sb in
              if is_upper sbUpper then
                if ascii_dec sbUpper (caseMask tb) then equalFoldRight s' t' else false
              else false
          else
            if Ascii.eqb sb "s"%char || Ascii.eqb sb "S"%char then
              String.prefix smallLongEss t && equalFoldRight s' (drop 2 t)
            else if Ascii.eqb sb "k"%char || Ascii.eqb sb "K"%char then
              String.prefix kelvin t && equalFoldRight s' (drop 3 t)
            else false
      end
  end.

(** does object key [k] select the field [Gx] (name "gx": foldFunc picks
    simpleLetterEqualFold) *)
Definition field_gx (k : string) : bool :=
  String.eqb k "gx" || simpleLetterEqualFold "gx" k.

(** does object key [k] select the field [Path] (name "dvcsimport", which
    contains an s: foldFunc picks equalFoldRight) *)
Definition field_dvcsimport (k : string) : bool :=
  String.eqb k "dvcsimport" || equalFoldRight "dvcsimport" k.

Example field_ex :
  field_gx "GX" = true /\ field_gx "gx " = false /\
  field_dvcsimport "DvcsImport" = true /\
  field_dvcsimport ("dvc" ++ smallLongEss ++ "import") = true /\
  field_dvcsimport ("dvc" ++ kelvin ++ "import") = false.
Proof. vm_compute. repeat split. Qed.

(** the [Path string] field: returns the new value and whether no type
    error occurred *)
Definition decode_path (acc : string) (v : json) : string * bool :=
  match v with
  | JStr s => (s, true)
  | JNull => (acc, true)
  | _ => (acc, false)
  end.

Definition decode_gx (acc : string) (v : json) : string * bool :=
  match v with
  | JNull => (acc, true)
  | JObj fields =>
      fold_left (fun '(a, ok) '(k, fv) =>
                   if field_dvcsimport k
                   then let '(a', ok') := decode_path a fv in (a', ok && ok')
                   else (a, ok)) fields (acc, true)
  | _ => (acc, false)
  end.

Definition decode_pkg (v : json) : string * bool :=
  match v with
  | JNull => (""%string, true)
  | JObj fields =>
      fold_left (fun '(a, ok) '(k, fv) =>
                   if field_gx k
                   then let '(a', ok') := decode_gx a fv in (a', ok && ok')
                   else (a, ok)) fields (""%string, true)
  | _ => (""%string, false)
  end.

(** json.Unmarshal(blob, &pkg): [None] is a non-nil error, [Some p] is
    [pkg.Gx.Path] *)
Definition json_Unmarshal (json_parse : string -> option json) (blob : string)
  : option string :=
  match json_parse blob with
  | None => None
  | Some v => let '(p, ok) := decode_pkg v in if ok then Some p else None
  end.

(* ------------------------------------------------------------------ *)
(** ** Outcomes and the file system oracle *)

(** [Fatal] is log.Fatalf (exit status 1), [Panic] a Go run-time panic *)
Inductive outcome (A : Type) :=
| Ok (a : A)
| Fatal (msg : string)
| Panic (msg : string).
Arguments Ok {A} a.
Arguments Fatal {A} msg.
Arguments Panic {A} msg.

Inductive fsop :=
| MkdirAll (p : list string)
| Rename (src dst : list string)
| Remove (p : list string).

Record fs_env := {
  (** ioutil.ReadDir: entry names sorted, or [None] on error *)
  ReadDir : list string -> option (list string);
  (** ioutil.ReadFile *)
  ReadFile : list string -> option string;
  (** whether os.MkdirAll / os.Rename / os.Remove succeeds *)
  fs_ok : fsop -> bool;
  (** the JSON syntax oracle *)
  json_parse : string -> option json
}.

Definition gxpkgs : list string := ["vendor"; "gx"; "ipfs"].

(** Manifest reading, main.go lines 40-56 and part_000 lines 65-81:
    the canonical import path of the package stored under [hash]. *)
Definition read_manifest (env : fs_env) (hash : string) : outcome string :=
  match ReadDir env (app gxpkgs [hash]) with
  | None => Fatal "Failed to list package contents"
  | Some dirs =>
      match dirs with
      | [] => Panic "runtime error: index out of range [0] with length 0"
      | d0 :: _ =>
          match ReadFile env (app gxpkgs [hash; d0; "package.json"]) with
          | None => Fatal "Failed to read package definition"
          | Some blob =>
              match json_Unmarshal (json_parse env) blob with
              | None => Fatal "Failed to parse package definition"
              | Some path => Ok path
              end
          end
      end
  end.

(** The first loop: [mappings[hash] = path; versions[path]++] *)
Fixpoint collect (env : fs_env) (hashes : list string)
  (mappings : gmap string string) (versions : gmap string nat)
  : outcome (gmap string string * gmap string nat) :=
  match hashes with
  | [] => Ok (mappings, versions)
  | hash :: rest =>
      match read_manifest env hash with
      | Ok path =>
          collect env rest (<[hash := path]> mappings)
            (<[path := S (default 0 (versions !! path))]> versions)
      | Fatal m => Fatal m
      | Panic m => Panic m
      end
  end.

(* ------------------------------------------------------------------ *)
(** ** filepath.Dir and filepath.Base on slash-separated paths

    The final Clean of filepath.Dir is left out: for import paths (no
    empty, "." or ".." elements) it returns its argument unchanged. *)

(** everything after the last slash *)
Fixpoint after_last_slash (s : string) : string :=
  match s with
  | EmptyString => EmptyString
  | String c s' =>
      if has_char slash s' then after_last_slash s'
      else if ascii_dec c slash then s' else s
  end.

(** everything before the last slash ([None] when there is no slash) *)
Fixpoint before_last_slash (s : string) : option string :=
  match s with
  | EmptyString => None
  | String c s' =>
      match before_last_slash s' with
      | Some d => Some (String c d)
      | None => if ascii_dec c slash then Some EmptyString else None
      end
  end.

Definition filepath_Dir (p : string) : string :=
  match before_last_slash p with
  | None => "."
  | Some EmptyString => "/"
  | Some d => d
  end.

Fixpoint strip_trailing_slashes (s : string) : string :=
  match s with
  | EmptyString => EmptyString
  | String c s' =>
      let t := strip_trailing_slashes s' in
      match t with
      | EmptyString => if ascii_dec c slash then EmptyString else String c EmptyString
      | _ => String c t
      end
  end.

Definition filepath_Base (p : string) : string :=
  match p with
  | EmptyString => "."
  | _ =>
      match after_last_slash (strip_trailing_slashes p) with
      | EmptyString => "/"
      | b => b
      end
  end.

Example dir_ex : filepath_Dir "github.com/x/y" = "github.com/x".
Proof. reflexivity. Qed.

Example base_ex : filepath_Base "./a/b/main.go" = "main.go".
Proof. reflexivity. Qed.

(* ------------------------------------------------------------------ *)
(** ** The conversion loop: a state and error monad

    The state is the log of file system operations attempted so far and
    the [rewrite] map; an error is a log.Fatalf message. *)

Definition St : Type := (list fsop * gmap string string)%type.
Definition M (A : Type) : Type := St -> St * (string + A).

#[global] Instance M_ret : MRet M := fun A a st => (st, inr a).
#[global] Instance M_bind : MBind M := fun A B k m st =>
  match m st with
  | (st', inl e) => (st', inl e)
  | (st', inr a) => k a st'
  end.

Fixpoint forM_ {A} (l : list A) (f : A -> M unit) : M unit :=
  match l with
  | [] => mret tt
  | x :: l' => f x ;; forM_ l' f
  end.

Section Convert.
Variable env : fs_env.

(** run a file system operation, log.Fatalf on failure *)
Definition exec (op : fsop) (msg : string) : M unit :=
  fun '(log, rw) => ((app log [op], rw), if fs_ok env op then inr tt else inl msg).

Definition read_dir (p : list string) (msg : string) : M (list string) :=
  fun st => (st, match ReadDir env p with Some l => inr l | None => inl msg end).

(** [rewrite[k] = v] *)
Definition set_rewrite (k v : string) : M unit :=
  fun '(log, rw) => ((log, <[k := v]> rw), inr tt).

Definition clashes (versions : gmap string nat) (path : string) : bool :=
  (1 <? default 0 (versions !! path))%nat.

(** main.go, lines 65-86: one iteration of [for hash, path := range mappings] *)
Definition convert_simple (versions : gmap string nat) (hash path : string) : M unit :=
  if clashes versions path then mret tt
  else
    exec (MkdirAll ["vendor"; filepath_Dir path]) "Failed to create canonical path" ;;
    dirs ← read_dir (app gxpkgs [hash]) "Failed to list package contents";
    forM_ dirs (fun dir =>
      exec (Rename (app gxpkgs [hash; dir]) ["vendor"; path]) "Failed to move canonical package" ;;
      set_rewrite ("gx/ipfs/" ++ hash ++ "/" ++ dir) path) ;;
    exec (Remove (app gxpkgs [hash])) "Failed to remote gx leftover".

Variable penv : probe_env.
Variable workspace root : string.

(** part_000, lines 90-142 *)
Definition convert_embed (versions : gmap string nat) (hash path : string) : M unit :=
  if clashes versions path then
    exec (MkdirAll ["gxlibs"; "ipfs"]) "Failed to create canonical embed path" ;;
    exec (Rename (app gxpkgs [hash]) ["gxlibs"; "ipfs"; hash]) "Failed to move embedded package" ;;
    set_rewrite ("gx/ipfs/" ++ hash) (root ++ "/gxlibs/ipfs/" ++ hash)
  else
    (if shouldEmbed penv workspace path then
       exec (MkdirAll ["gxlibs"; filepath_Dir path]) "Failed to create canonical embed path" ;;
       dirs ← read_dir (app gxpkgs [hash]) "Failed to list package contents";
       forM_ dirs (fun dir =>
         exec (Rename (app gxpkgs [hash; dir]) ["gxlibs"; path]) "Failed to move embedded package" ;;
         set_rewrite ("gx/ipfs/" ++ hash ++ "/" ++ dir) (root ++ "/gxlibs/" ++ path) ;;
         set_rewrite path (root ++ "/gxlibs/" ++ path))
     else
       exec (MkdirAll ["vendor"; filepath_Dir path]) "Failed to create canonical vendor path" ;;
       dirs ← read_dir (app gxpkgs [hash]) "Failed to list package contents";
       forM_ dirs (fun dir =>
         exec (Rename (app gxpkgs [hash; dir]) ["vendor"; path]) "Failed to move vendored package" ;;
         set_rewrite ("gx/ipfs/" ++ hash ++ "/" ++ dir) path)) ;;
    exec (Remove (app gxpkgs [hash])) "Failed to remove gx leftover".

(** the whole loop; [order] is the order in which [range mappings] visits
    the (hash, path) entries *)
Definition run_simple (versions : gmap string nat) (order : list (string * string)) : M unit :=
  forM_ order (fun '(hash, path) => convert_simple versions hash path).

Definition run_embed (versions : gmap string nat) (order : list (string * string)) : M unit :=
  forM_ order (fun '(hash, path) => convert_embed versions hash path).

End Convert.

Fixpoint path_prefixb (p l : list string) : bool :=
  match p, l with
  | [], _ => true
  | x :: p', y :: l' => String.eqb x y && path_prefixb p' l'
  | _, _ => false
  end.

(** a file system operation that takes something out of vendor/gx/ipfs/<hash> *)
Definition moves_out_of (hash : string) (op : fsop) : bool :=
  match op with
  | Rename src _ => path_prefixb (app gxpkgs [hash]) src
  | Remove p => path_prefixb (app gxpkgs [hash]) p
  | MkdirAll _ => false
  end.

(* ------------------------------------------------------------------ *)
(** ** The rewrite walk (main.go lines 90-117, part_000 lines 147-179)

    [entries] lists what filepath.Walk visits, in order; [walk_err] is the
    error Walk hands to the callback for that entry. The file store maps a
    path to its content ([None]: ReadFile fails). *)

Record walk_entry := {
  fp : string;
  is_dir : bool;
  walk_err : bool
}.

Definition store := string -> option string.

Definition store_set (fs : store) (p v : string) : store :=
  fun p' => if String.eqb p' p then Some v else fs p'.

(** [transform fp oldblob] is the content the callback computes for file
    [fp]; [WriteFile_ok fp] says whether ioutil.WriteFile succeeds. The
    result is the final store and the error that aborted the walk, if any. *)
Fixpoint walk (transform : string -> string -> string) (WriteFile_ok : string -> bool)
  (entries : list walk_entry) (fs : store) : store * option string :=
  match entries with
  | [] => (fs, None)
  | e :: rest =>
      if walk_err e then (fs, Some "walk error")
      else if is_dir e then walk transform WriteFile_ok rest fs
      else if HasSuffix (filepath_Base (fp e)) ".go" then
        match fs (fp e) with
        | None => (fs, Some "read error")
        | Some oldblob =>
            let newblob := transform (fp e) oldblob in
            if String.eqb oldblob newblob then walk transform WriteFile_ok rest fs
            else if WriteFile_ok (fp e)
            then walk transform WriteFile_ok rest (store_set fs (fp e) newblob)
            else (fs, Some "write error")
        end
      else walk transform WriteFile_ok rest fs
  end.

(** the two modes; [iter fp] is the order in which [range rewrite] visits
    the map while the callback handles file [fp] *)
Definition walk_simple (iter : string -> list (string * string)) :=
  walk (fun p b => rewrite_blob_simple (iter p) b).

Definition walk_embed (iter : string -> list (string * string)) (root fork : string) :=
  walk (fun p b => rewrite_blob_embed (iter p) root fork b).

(* ================================================================== *)
(** * Properties *)

(* ------------------------------------------------------------------ *)
(** ** The placement probe *)

Definition probe_env_status (code : nat) : probe_env := {|
  http_Get := fun _ => Some code;
  go_get_ok := fun _ _ => true;
  os_Stat_ok := fun _ => true
|}.

(** C4 (counterexample): a 204 No Content answer is a 200-class response,
    yet the GitHub shortcut classifies the package as vendorable. *)
Lemma C4_counterexample :
  (200 <= 204 < 300)%nat /\
  HasPrefix "github.com/x/y" "github.com/" = true /\
  shouldEmbed (probe_env_status 204) "/tmp/ws" "github.com/x/y" = false.
Proof. vm_compute. repeat split; lia. Qed.

(** C4 (amended): for a path under github.com/, the probe answers Embed
    exactly when the request fails with a transport error or the response
    status is exactly 200 (http.StatusOK); any other status, other 2xx
    codes included, gives InlineVendor. *)
Theorem shouldEmbed_github (env : probe_env) (gopath path : string)
  (Hgh : HasPrefix path "github.com/" = true) :
  shouldEmbed env gopath path = true <->
  http_Get env (raw_url path) = None \/ http_Get env (raw_url path) = Some 200%nat.
Proof.
  unfold shouldEmbed. rewrite Hgh.
  destruct (http_Get env (raw_url path)) as [code|]; split; intros H.
  - right. apply Nat.eqb_eq in H. unfold http_StatusOK in H. now subst.
  - destruct H as [H|H]; [discriminate|]. injection H as ->. reflexivity.
  - left. reflexivity.
  - reflexivity.
Qed.

Lemma shouldEmbed_github_witness :
  HasPrefix "github.com/x/y" "github.com/" = true /\
  (shouldEmbed (probe_env_status 204) "/tmp/ws" "github.com/x/y" = true <->
   http_Get (probe_env_status 204) (raw_url "github.com/x/y") = None \/
   http_Get (probe_env_status 204) (raw_url "github.com/x/y") = Some 200%nat).
Proof.
  split; [reflexivity|].
  apply (shouldEmbed_github (probe_env_status 204) "/tmp/ws" "github.com/x/y").
  reflexivity.
Defined.

(** C9: for a path outside github.com/, the fallback probe answers
    InlineVendor exactly when `go get` into the disposable workspace
    succeeds and no package.json is found at the fetched root. *)
Theorem shouldEmbed_fallback (env : probe_env) (gopath path : string)
  (Hgh : HasPrefix path "github.com/" = false) :
  shouldEmbed env gopath path = false <->
  go_get_ok env gopath (path ++ "/...") = true /\
  os_Stat_ok env [gopath; "src"; path; "package.json"] = false.
Proof.
  unfold shouldEmbed. rewrite Hgh.
  destruct (go_get_ok env gopath (path ++ "/..."));
    destruct (os_Stat_ok env [gopath; "src"; path; "package.json"]);
    intuition discriminate.
Qed.

Definition probe_env_fetch (fetched has_spec : bool) : probe_env := {|
  http_Get := fun _ => None;
  go_get_ok := fun _ _ => fetched;
  os_Stat_ok := fun _ => has_spec
|}.

Lemma shouldEmbed_fallback_witness :
  HasPrefix "golang.org/x/net" "github.com/" = false /\
  (shouldEmbed (probe_env_fetch true false) "/tmp/ws" "golang.org/x/net" = false <->
   go_get_ok (probe_env_fetch true false) "/tmp/ws" ("golang.org/x/net" ++ "/...") = true /\
   os_Stat_ok (probe_env_fetch true false)
     ["/tmp/ws"; "src"; "golang.org/x/net"; "package.json"] = false).
Proof.
  split; [reflexivity|].
  apply (shouldEmbed_fallback (probe_env_fetch true false) "/tmp/ws" "golang.org/x/net").
  reflexivity.
Defined.

(* ------------------------------------------------------------------ *)
(** ** The manifest reader *)

(** C5: when the origin directory lists no entry, [dirs[0]] is evaluated
    unguarded: the reader panics with an index error instead of reporting
    a missing manifest through log.Fatalf. *)
Theorem read_manifest_empty_dir (env : fs_env) (hash : string)
  (Hempty : ReadDir env (app gxpkgs [hash]) = Some []) :
  read_manifest env hash = Panic "runtime error: index out of range [0] with length 0".
Proof. unfold read_manifest. now rewrite Hempty. Qed.

Definition fs_env_empty_pkg : fs_env := {|
  ReadDir := fun _ => Some [];
  ReadFile := fun _ => None;
  fs_ok := fun _ => true;
  json_parse := fun _ => None
|}.

Lemma read_manifest_empty_dir_witness :
  ReadDir fs_env_empty_pkg (app gxpkgs ["QmEmpty"]) = Some [] /\
  read_manifest fs_env_empty_pkg "QmEmpty"
  = Panic "runtime error: index out of range [0] with length 0".
Proof.
  split; [reflexivity|].
  apply read_manifest_empty_dir. reflexivity.
Defined.

Definition fs_env_spec (parsed : json) : fs_env := {|
  ReadDir := fun _ => Some ["proj"];
  ReadFile := fun _ => Some "{ ... }";
  fs_ok := fun _ => true;
  json_parse := fun _ => Some parsed
|}.

Section Decode.
Variable matches : string -> bool.
Variable g : string -> json -> string * bool.

(** one step of the decoder's walk over the fields of a JSON object *)
Definition dec_step : string * bool -> string * json -> string * bool :=
  fun '(a, ok) '(k, fv) =>
    if matches k then let '(a', ok') := g a fv in (a', ok && ok') else (a, ok).

Lemma dec_step_eq (a : string) (ok : bool) (k : string) (fv : json) :
  dec_step (a, ok) (k, fv)
  = if matches k then (fst (g a fv), ok && snd (g a fv)) else (a, ok).
Proof. unfold dec_step. destruct (matches k); [destruct (g a fv)|]; reflexivity. Qed.

Lemma dec_false (l : list (string * json)) (a : string) :
  snd (fold_left dec_step l (a, false)) = false.
Proof.
  revert a. induction l as [|[k fv] l IH]; intros a; [reflexivity|].
  cbn [fold_left]. rewrite dec_step_eq. destruct (matches k); apply IH.
Qed.

Lemma dec_bad (l : list (string * json)) (a : string) (ok : bool) (k : string) (v : json) :
  In (k, v) l -> matches k = true -> (forall a, snd (g a v) = false) ->
  snd (fold_left dec_step l (a, ok)) = false.
Proof.
  revert a ok. induction l as [|[k0 fv] l IH]; intros a ok Hin Hk Hg; [destruct Hin|].
  cbn [fold_left]. destruct Hin as [E|Hin].
  - injection E as -> ->. rewrite dec_step_eq, Hk, Hg, andb_false_r. apply dec_false.
  - rewrite dec_step_eq. destruct (matches k0); apply IH; assumption.
Qed.

Lemma dec_skip (l : list (string * json)) (a : string) (ok : bool) :
  (forall k v, In (k, v) l -> matches k = false) ->
  fold_left dec_step l (a, ok) = (a, ok).
Proof.
  revert a ok. induction l as [|[k fv] l IH]; intros a ok H; [reflexivity|].
  cbn [fold_left]. rewrite dec_step_eq, (H k fv (or_introl eq_refl)).
  apply IH. intros k' v' Hin. exact (H k' v' (or_intror Hin)).
Qed.

Lemma dec_one (pre post : list (string * json)) (k : string) (v : json) (a : string) :
  matches k = true ->
  (forall k' v', In (k', v') (pre ++ post) -> matches k' = false) ->
  fold_left dec_step (pre ++ (k, v) :: post) (a, true) = g a v.
Proof.
  intros Hk H. rewrite fold_left_app, dec_skip.
  - cbn [fold_left]. rewrite dec_step_eq, Hk. cbn [andb].
    rewrite dec_skip; [destruct (g a v); reflexivity|].
    intros k' v' Hin. apply (H k' v'). apply in_or_app. right. exact Hin.
  - intros k' v' Hin. apply (H k' v'). apply in_or_app. left. exact Hin.
Qed.

End Decode.




(** C6 (counterexample): package.json = {"gx": {}} parses, has no
    dvcsimport field, and the reader yields the empty canonical path. *)
Lemma C6_counterexample :
  read_manifest (fs_env_spec (JObj [("gx", JObj [])])) "QmA" = Ok "".
Proof. reflexivity. Qed.

(** encoding/json lets U+017F stand for s in a member name: at
    {"gx": {"dvcſimport": "github.com/x/y"}} the path is read *)
Example read_manifest_long_s :
  read_manifest (fs_env_spec (JObj [("gx", JObj [("dvc" ++ smallLongEss ++ "import",
                                                  JStr "github.com/x/y")])])) "QmA"
  = Ok "github.com/x/y".
Proof. vm_compute. reflexivity. Qed.

(** a parsed descriptor in which no gx.dvcsimport field is present *)
Definition lacks_dvcsimport (fields : list (string * json)) : Prop :=
  forall k v, In (k, v) fields -> field_gx k = true ->
    v = JNull \/
    exists inner, v = JObj inner /\
      forall k' v', In (k', v') inner -> field_dvcsimport k' = false.

Lemma decode_gx_absent (inner : list (string * json)) (acc : string) :
  (forall k' v', In (k', v') inner -> field_dvcsimport k' = false) ->
  decode_gx acc (JObj inner) = (acc, true).
Proof.
  intros Habs. simpl.
  assert (Hgen : forall l a ok,
    (forall k' v', In (k', v') l -> field_dvcsimport k' = false) ->
    fold_left (fun '(a, ok) '(k, fv) =>
      if field_dvcsimport k
      then let '(a', ok') := decode_path a fv in (a', ok && ok')
      else (a, ok)) l (a, ok) = (a, ok)).
  { induction l as [|[k v] l IH]; intros a ok Hl; simpl; [reflexivity|].
    rewrite (Hl k v) by (left; reflexivity).
    apply IH. intros k' v' Hin. eapply Hl. right. exact Hin. }
  apply Hgen. exact Habs.
Qed.

(** C6 (amended): once the descriptor is read, (1) if it parses as a JSON
    object with no gx.dvcsimport member (member names matched as
    encoding/json matches them) the reader succeeds with the empty
    canonical path; (2) if it does not parse, the reader stops with
    "Failed to parse package definition"; (3) so it does when a gx member
    holds neither an object nor null, e.g. {"gx": 5}. *)
Theorem read_manifest_missing_field (env : fs_env) (hash d0 blob : string)
  (ds : list string)
  (Hdir : ReadDir env (app gxpkgs [hash]) = Some (d0 :: ds))
  (Hfile : ReadFile env (app gxpkgs [hash; d0; "package.json"]) = Some blob) :
  (forall fields, json_parse env blob = Some (JObj fields) ->
     lacks_dvcsimport fields -> read_manifest env hash = Ok "") /\
  (json_parse env blob = None ->
     read_manifest env hash = Fatal "Failed to parse package definition") /\
  (forall fields k v, json_parse env blob = Some (JObj fields) ->
     In (k, v) fields -> field_gx k = true ->
     match v with JNull | JObj _ => False | _ => True end ->
     read_manifest env hash = Fatal "Failed to parse package definition").
Proof.
  unfold read_manifest, json_Unmarshal. rewrite Hdir, Hfile.
  split; [|split].
  - intros fields Hparse Habs. rewrite Hparse. simpl.
    assert (Hgen : forall l ok,
      lacks_dvcsimport l ->
      fold_left (fun '(a, ok) '(k, fv) =>
        if field_gx k
        then let '(a', ok') := decode_gx a fv in (a', ok && ok')
        else (a, ok)) l (""%string, ok) = (""%string, ok)).
    { induction l as [|[k v] l IH]; intros ok Hl; simpl; [reflexivity|].
      destruct (field_gx k) eqn:Hk.
      - destruct (Hl k v (or_introl eq_refl) Hk) as [->|[inner [-> Hin]]].
        + simpl. rewrite andb_true_r. apply IH.
          intros k' v' Hi. apply Hl. right. exact Hi.
        + rewrite (decode_gx_absent inner "" Hin), andb_true_r. apply IH.
          intros k' v' Hi. apply Hl. right. exact Hi.
      - apply IH. intros k' v' Hi. apply Hl. right. exact Hi. }
    rewrite (Hgen fields true Habs). reflexivity.
  - intros Hparse. rewrite Hparse. reflexivity.
  - intros fields k v Hparse Hin Hk Hv. rewrite Hparse.
    assert (H : snd (decode_pkg (JObj fields)) = false).
    { change (decode_pkg (JObj fields))
        with (fold_left (dec_step field_gx decode_gx) fields (""%string, true)).
      apply (dec_bad _ _ _ _ _ k v Hin Hk). intros a.
      destruct v; solve [contradiction | reflexivity]. }
    destruct (decode_pkg (JObj fields)) as [p ok]. cbn [snd] in H. subst ok.
    reflexivity.
Qed.

Lemma read_manifest_missing_field_witness :
  read_manifest (fs_env_spec (JObj [("gx", JObj [("version", JStr "1.0")])])) "QmA" = Ok "".
Proof.
  destruct (read_manifest_missing_field
              (fs_env_spec (JObj [("gx", JObj [("version", JStr "1.0")])]))
              "QmA" "proj" "{ ... }" [] eq_refl eq_refl) as [H _].
  apply (H [("gx", JObj [("version", JStr "1.0")])] eq_refl).
  intros k v Hin Hk. simpl in Hin. destruct Hin as [Hin|[]].
  injection Hin as <- <-. right. eexists. split; [reflexivity|].
  intros k' v' Hin'. simpl in Hin'. destruct Hin' as [Hin'|[]].
  injection Hin' as <- <-. reflexivity.
Defined.

(* ------------------------------------------------------------------ *)
(** ** The walk only ever writes .go files *)

Lemma walk_frame (transform : string -> string -> string) (wok : string -> bool)
  (entries : list walk_entry) (fs : store) (p : string) :
  HasSuffix (filepath_Base p) ".go" = false ->
  fst (walk transform wok entries fs) p = fs p.
Proof.
  intros Hp. revert fs.
  induction entries as [|e rest IH]; intros fs; simpl; [reflexivity|].
  destruct (walk_err e); [reflexivity|].
  destruct (is_dir e); [apply IH|].
  destruct (HasSuffix (filepath_Base (fp e)) ".go") eqn:Hgo; [|apply IH].
  destruct (fs (fp e)) as [oldblob|]; [|reflexivity].
  destruct (String.eqb oldblob (transform (fp e) oldblob)); [apply IH|].
  destruct (wok (fp e)); [|reflexivity].
  rewrite IH. unfold store_set.
  destruct (String.eqb p (fp e)) eqn:Hpe; [|reflexivity].
  apply String.eqb_eq in Hpe. subst. congruence.
Qed.

(** C10: in both modes, every walked file whose name does not end in
    ".go" keeps its content. *)
Theorem walk_non_go_unchanged (p : string)
  (Hp : HasSuffix (filepath_Base p) ".go" = false) :
  (forall iter wok entries fs,
      fst (walk_simple iter wok entries fs) p = fs p) /\
  (forall iter root fork wok entries fs,
      fst (walk_embed iter root fork wok entries fs) p = fs p).
Proof.
  split; intros; apply walk_frame; exact Hp.
Qed.

Lemma walk_non_go_unchanged_witness :
  HasSuffix (filepath_Base "./README.md") ".go" = false /\
  fst (walk_embed (fun _ => [("gx/ipfs/QmA/x", "github.com/a/x")]) "github.com/me/p" ""
         (fun _ => true)
         [{| fp := "./README.md"; is_dir := false; walk_err := false |}]
         (fun _ => Some "see gx/ipfs/QmA/x")) "./README.md" = Some "see gx/ipfs/QmA/x".
Proof.
  split; [reflexivity|].
  apply (walk_non_go_unchanged "./README.md"). reflexivity.
Defined.

(* ------------------------------------------------------------------ *)
(** ** Content split at its double quotes

    Every pattern of the embedding mode starts with a double quote, so its
    effect is best read on the pieces of the content between quotes: the
    piece before the first quote, then the piece following each quote. *)

Fixpoint join_chunks (cs : list string) : string :=
  match cs with
  | [] => EmptyString
  | c :: cs' => q c ++ join_chunks cs'
  end.

Fixpoint split_quotes (s : string) : string * list string :=
  match s with
  | EmptyString => (EmptyString, [])
  | String c s' =>
      let '(h, t) := split_quotes s' in
      if ascii_dec c quote then (EmptyString, h :: t) else (String c h, t)
  end.

(** what replacing [q k] by [q v] does to the piece following one quote *)
Definition chunk_rw (k v c : string) : string :=
  if String.prefix k c then v ++ drop (String.length k) c else c.

Definition chunk_rewrite (rw : list (string * string)) (c : string) : string :=
  fold_left (fun c '(k, v) => chunk_rw k v c) rw c.

(** what replacing [q (qend r)] by [q (qend f)] does to the pieces: a
    piece equal to [r] and followed by a quote is renamed, and the quote
    after it is consumed, so the next piece cannot start a match *)
Fixpoint exact_rw (r f : string) (cs : list string) : list string :=
  match cs with
  | [] => []
  | c :: cs' =>
      if String.eqb c r then
        match cs' with
        | [] => [c]
        | c2 :: cs'' => f :: c2 :: exact_rw r f cs''
        end
      else c :: exact_rw r f cs'
  end.

Definition qfree (s : string) : Prop := has_quote s = false.

Definition starts_q (s : string) : Prop :=
  match s with
  | EmptyString => True
  | String x _ => x = quote
  end.

(** basic string facts *)

Lemma sapp_assoc (a b c : string) : (a ++ b) ++ c = a ++ (b ++ c).
Proof. induction a as [|x a IH]; simpl; [reflexivity|]. now rewrite IH. Qed.

Lemma sapp_nil_r (a : string) : a ++ "" = a.
Proof. induction a as [|x a IH]; simpl; [reflexivity|]. now rewrite IH. Qed.

Lemma slength_app (a b : string) :
  String.length (a ++ b) = String.length a + String.length b.
Proof. induction a as [|x a IH]; simpl; [reflexivity|]. now rewrite IH. Qed.

Lemma has_char_app (x : ascii) (a b : string) :
  has_char x (a ++ b) = has_char x a || has_char x b.
Proof.
  induction a as [|y a IH]; simpl; [reflexivity|].
  destruct (ascii_dec y x); [reflexivity|]. exact IH.
Qed.

Lemma has_char_drop (x : ascii) (n : nat) (a : string) :
  has_char x a = false -> has_char x (drop n a) = false.
Proof.
  revert a. induction n as [|n IH]; intros a H; simpl; [exact H|].
  destruct a as [|y a]; [reflexivity|]. apply IH.
  simpl in H. destruct (ascii_dec y x); [discriminate|exact H].
Qed.

Lemma drop_app (n : nat) (a b : string) :
  n <= String.length a -> drop n (a ++ b) = drop n a ++ b.
Proof.
  revert a. induction n as [|n IH]; intros a H; simpl; [reflexivity|].
  destruct a as [|y a]; simpl in H; [lia|]. apply IH. lia.
Qed.

Lemma drop_app_length (a b : string) : drop (String.length a) (a ++ b) = b.
Proof. induction a as [|y a IH]; simpl; [reflexivity|exact IH]. Qed.

Lemma prefix_length (k c : string) :
  String.prefix k c = true -> String.length k <= String.length c.
Proof.
  revert c. induction k as [|x k IH]; intros c H; simpl; [lia|].
  destruct c as [|y c]; simpl in H; [discriminate|].
  destruct (ascii_dec x y); [|discriminate]. apply IH in H. simpl. lia.
Qed.

Lemma prefix_nil (s : string) : String.prefix "" s = true.
Proof. destruct s; reflexivity. Qed.

Lemma prefix_app_self (k b : string) : String.prefix k (k ++ b) = true.
Proof.
  induction k as [|x k IH]; simpl; [apply prefix_nil|].
  destruct (ascii_dec x x); [exact IH|contradiction].
Qed.

(** a key free of [x] cannot run across into a part that starts with [x] *)
Lemma prefix_app_sep (x : ascii) (k c rest : string) :
  has_char x k = false -> has_char x c = false ->
  match rest with EmptyString => True | String y _ => y = x end ->
  String.prefix k (c ++ rest) = String.prefix k c.
Proof.
  revert c. induction k as [|a k IH]; intros c Hk Hc Hr; [now rewrite !prefix_nil|].
  simpl in Hk. destruct (ascii_dec a x) as [|Hax]; [discriminate|].
  destruct c as [|b c]; simpl.
  - destruct rest as [|y rest]; [reflexivity|]. subst y. simpl.
    destruct (ascii_dec a x); [contradiction|reflexivity].
  - simpl in Hc. destruct (ascii_dec b x); [discriminate|].
    destruct (ascii_dec a b); [|reflexivity]. now apply IH.
Qed.

(** bytes.Replace: skipping, and quote-free stretches *)

Lemma sapp_cons (c : ascii) (a b : string) : String c a ++ b = String c (a ++ b).
Proof. reflexivity. Qed.

Lemma prefix_cons (a : ascii) (k : string) (b : ascii) (s : string) :
  String.prefix (String a k) (String b s)
  = if ascii_dec a b then String.prefix k s else false.
Proof. reflexivity. Qed.

Lemma replace_go_0_cons (o n : string) (c : ascii) (s : string) :
  replace_go o n 0 (String c s)
  = if String.prefix o (String c s)
    then n ++ replace_go o n (pred (String.length o)) s
    else String c (replace_go o n 0 s).
Proof. reflexivity. Qed.

Lemma replace_skip (o n : string) (k : nat) (s : string) :
  replace_go o n k s = replace_go o n 0 (drop k s).
Proof.
  revert k. induction s as [|c s IH]; intros k; destruct k as [|k]; simpl;
    try reflexivity.
  now rewrite IH.
Qed.

Lemma replace_free (o n x y : string) :
  qfree x -> replace_go (q o) n 0 (x ++ y) = x ++ replace_go (q o) n 0 y.
Proof.
  unfold qfree, has_quote. induction x as [|c x IH]; intros Hx; [reflexivity|].
  simpl in Hx. destruct (ascii_dec c quote) as [|Hc]; [discriminate|].
  rewrite !sapp_cons, replace_go_0_cons. unfold q at 1. rewrite prefix_cons.
  destruct (ascii_dec quote c) as [E|]; [congruence|].
  now rewrite IH.
Qed.

Lemma replace_q_step (k n c r : string) :
  replace_go (q k) n 0 (q c ++ r)
  = if String.prefix k (c ++ r)
    then n ++ replace_go (q k) n (String.length k) (c ++ r)
    else q (replace_go (q k) n 0 (c ++ r)).
Proof.
  unfold q at 2. rewrite sapp_cons, replace_go_0_cons. unfold q at 1. rewrite prefix_cons.
  destruct (ascii_dec quote quote); [reflexivity|contradiction].
Qed.

Lemma replace_nil (o n : string) (k : nat) : replace_go o n k "" = "".
Proof. destruct k; reflexivity. Qed.

Lemma join_cons (c : string) (cs : list string) :
  join_chunks (c :: cs) = q c ++ join_chunks cs.
Proof. reflexivity. Qed.

Lemma join_starts_q (cs : list string) : starts_q (join_chunks cs).
Proof. destruct cs; simpl; exact I || reflexivity. Qed.

Lemma chunk_rw_qfree (k v c : string) : qfree v -> qfree c -> qfree (chunk_rw k v c).
Proof.
  unfold qfree, has_quote, chunk_rw. intros Hv Hc.
  destruct (String.prefix k c); [|exact Hc].
  rewrite has_char_app, Hv. simpl. now apply has_char_drop.
Qed.

(** one quoted key substitution acts piece by piece *)
Lemma replace_chunks (k v c0 : string) (cs : list string) :
  qfree k -> Forall qfree (c0 :: cs) ->
  replace_go (q k) (q v) 0 (c0 ++ join_chunks cs)
  = c0 ++ join_chunks (map (chunk_rw k v) cs).
Proof.
  intros Hk Hall. inversion Hall as [|? ? Hc0 Hcs]; subst.
  rewrite replace_free by exact Hc0. f_equal.
  clear Hall Hc0. induction cs as [|c cs IH]; [reflexivity|].
  inversion Hcs as [|? ? Hc Hcs']; subst.
  rewrite map_cons, !join_cons, replace_q_step.
  rewrite (prefix_app_sep quote k c (join_chunks cs) Hk Hc (join_starts_q cs)).
  unfold chunk_rw. destruct (String.prefix k c) eqn:Hp.
  - rewrite replace_skip.
    rewrite drop_app by (apply prefix_length; exact Hp).
    rewrite replace_free by (apply has_char_drop; exact Hc).
    rewrite IH by exact Hcs'. unfold q. rewrite !sapp_cons. now rewrite sapp_assoc.
  - rewrite replace_free by exact Hc. rewrite IH by exact Hcs'. reflexivity.
Qed.

(** splitting and joining the pieces *)

Lemma split_cons (c : ascii) (s : string) :
  split_quotes (String c s)
  = let '(h, t) := split_quotes s in
    if ascii_dec c quote then (EmptyString, h :: t) else (String c h, t).
Proof. reflexivity. Qed.

Lemma split_prefix_free (c0 x : string) :
  qfree c0 ->
  split_quotes (c0 ++ x) = (c0 ++ fst (split_quotes x), snd (split_quotes x)).
Proof.
  unfold qfree, has_quote. induction c0 as [|a c0 IH]; intros H.
  - change (EmptyString ++ x) with x. destruct (split_quotes x); reflexivity.
  - simpl in H. destruct (ascii_dec a quote) as [|Ha]; [discriminate|].
    rewrite sapp_cons, split_cons, IH by exact H.
    destruct (ascii_dec a quote); [contradiction|reflexivity].
Qed.

Lemma split_join (c0 : string) (cs : list string) :
  Forall qfree (c0 :: cs) -> split_quotes (c0 ++ join_chunks cs) = (c0, cs).
Proof.
  intros Hall. inversion Hall as [|? ? Hc0 Hcs]; subst.
  rewrite split_prefix_free by exact Hc0.
  assert (Hj : split_quotes (join_chunks cs) = (EmptyString, cs)).
  { clear Hall. induction cs as [|c cs IH]; [reflexivity|].
    inversion Hcs as [|? ? Hc Hcs']; subst.
    rewrite join_cons. unfold q. rewrite sapp_cons, split_cons.
    rewrite split_prefix_free by exact Hc. rewrite IH by exact Hcs'. simpl.
    rewrite sapp_nil_r. destruct (ascii_dec quote quote); [reflexivity|contradiction]. }
  rewrite Hj. simpl. now rewrite sapp_nil_r.
Qed.

Lemma join_split (s : string) :
  s = fst (split_quotes s) ++ join_chunks (snd (split_quotes s)) /\
  Forall qfree (fst (split_quotes s) :: snd (split_quotes s)).
Proof.
  induction s as [|c s IH]; [split; [reflexivity|repeat constructor]|].
  rewrite split_cons. destruct (split_quotes s) as [h t]. simpl in IH.
  destruct IH as [Hs Hall]. inversion Hall as [|? ? Hh Ht]; subst.
  destruct (ascii_dec c quote) as [->|Hc]; simpl.
  - split.
    + reflexivity.
    + constructor; [reflexivity|constructor; assumption].
  - split.
    + reflexivity.
    + constructor; [|exact Ht]. unfold qfree, has_quote. simpl.
      destruct (ascii_dec c quote); [contradiction|exact Hh].
Qed.

(** the whole key loop of the embedding mode *)

Lemma bytes_Replace_q (s k n : string) : bytes_Replace s (q k) n = replace_go (q k) n 0 s.
Proof. reflexivity. Qed.

Lemma chunk_rewrite_qfree (rw : list (string * string)) (c : string) :
  (forall k v, In (k, v) rw -> qfree k /\ qfree v) -> qfree c ->
  qfree (chunk_rewrite rw c).
Proof.
  unfold chunk_rewrite. revert c.
  induction rw as [|[k v] rw IH]; intros c Hrw Hc; [exact Hc|].
  simpl. apply IH.
  - intros k' v' Hin. apply Hrw. right. exact Hin.
  - apply chunk_rw_qfree; [apply (Hrw k v); left; reflexivity|exact Hc].
Qed.

Lemma keys_chunks (rw : list (string * string)) (c0 : string) (cs : list string) :
  (forall k v, In (k, v) rw -> qfree k /\ qfree v) ->
  Forall qfree (c0 :: cs) ->
  rewrite_keys_embed rw (c0 ++ join_chunks cs)
  = c0 ++ join_chunks (map (chunk_rewrite rw) cs).
Proof.
  unfold rewrite_keys_embed. revert cs.
  induction rw as [|[k v] rw IH]; intros cs Hrw Hall.
  - simpl. f_equal. f_equal. induction cs as [|c cs IHc]; [reflexivity|].
    simpl. f_equal. apply IHc. inversion Hall as [|? ? ? Hcs]; subst.
    inversion Hcs; subst. constructor; assumption.
  - cbn [fold_left]. rewrite bytes_Replace_q.
    destruct (Hrw k v (or_introl eq_refl)) as [Hk Hv].
    rewrite replace_chunks by assumption.
    rewrite IH.
    + rewrite map_map. reflexivity.
    + intros k' v' Hin. apply Hrw. right. exact Hin.
    + inversion Hall as [|? ? Hc0 Hcs]; subst. constructor; [exact Hc0|].
      apply Forall_map. eapply Forall_impl; [exact Hcs|].
      intros c Hc. apply chunk_rw_qfree; assumption.
Qed.

(** the exact-root substitution of the fork rename *)

Lemma exact_rw_cons (r f c : string) (cs : list string) :
  exact_rw r f (c :: cs)
  = if String.eqb c r then
      match cs with
      | [] => [c]
      | c2 :: cs'' => f :: c2 :: exact_rw r f cs''
      end
    else c :: exact_rw r f cs.
Proof. reflexivity. Qed.

Lemma seqb_cons (a : ascii) (s : string) (b : ascii) (t : string) :
  String.eqb (String a s) (String b t) = Ascii.eqb a b && String.eqb s t.
Proof. reflexivity. Qed.

Lemma qend_cons (a : ascii) (r : string) : qend (String a r) = String a (qend r).
Proof. reflexivity. Qed.

Lemma prefix_qend (r c rest : string) :
  qfree r -> qfree c -> starts_q rest ->
  String.prefix (qend r) (c ++ rest)
  = String.eqb c r && match rest with EmptyString => false | _ => true end.
Proof.
  unfold qfree, has_quote. revert c.
  induction r as [|a r IH]; intros c Hr Hc Hrest.
  - change (qend "") with (String quote "").
    destruct c as [|b c].
    + change (EmptyString ++ rest) with rest.
      destruct rest as [|y rest]; [reflexivity|]. simpl in Hrest. subst y.
      rewrite prefix_cons. destruct (ascii_dec quote quote); [|contradiction].
      now rewrite prefix_nil.
    + simpl in Hc. destruct (ascii_dec b quote); [discriminate|].
      rewrite sapp_cons, prefix_cons.
      destruct (ascii_dec quote b); [congruence|reflexivity].
  - simpl in Hr. destruct (ascii_dec a quote) as [|Ha]; [discriminate|].
    rewrite qend_cons. destruct c as [|b c].
    + change (EmptyString ++ rest) with rest.
      destruct rest as [|y rest]; [reflexivity|]. simpl in Hrest. subst y.
      rewrite prefix_cons.
      destruct (ascii_dec a quote); [contradiction|reflexivity].
    + simpl in Hc. destruct (ascii_dec b quote) as [|Hb]; [discriminate|].
      rewrite sapp_cons, prefix_cons, IH by assumption. rewrite seqb_cons.
      destruct (ascii_dec a b) as [->|Hab].
      * now rewrite Ascii.eqb_refl.
      * assert (E : Ascii.eqb b a = false) by (apply Ascii.eqb_neq; congruence).
        now rewrite E.
Qed.

Lemma qend_app (r y : string) : r ++ String quote y = qend r ++ y.
Proof. unfold qend. rewrite sapp_assoc. reflexivity. Qed.

Lemma replace_exact (r f c0 : string) (cs : list string) :
  qfree r -> Forall qfree (c0 :: cs) ->
  replace_go (q (qend r)) (q (qend f)) 0 (c0 ++ join_chunks cs)
  = c0 ++ join_chunks (exact_rw r f cs).
Proof.
  intros Hr Hall. inversion Hall as [|? ? Hc0 Hcs]; subst.
  rewrite replace_free by exact Hc0. f_equal. clear Hall Hc0.
  assert (Hgen : forall n cs, length cs <= n -> Forall qfree cs ->
    replace_go (q (qend r)) (q (qend f)) 0 (join_chunks cs)
    = join_chunks (exact_rw r f cs)).
  { induction n as [|n IH]; intros l Hlen Hl.
    - destruct l; [reflexivity|simpl in Hlen; lia].
    - destruct l as [|c l]; [reflexivity|].
      simpl in Hlen. inversion Hl as [|? ? Hc Hl']; subst.
      rewrite join_cons, replace_q_step, exact_rw_cons.
      rewrite (prefix_qend r c (join_chunks l) Hr Hc (join_starts_q l)).
      destruct (String.eqb c r) eqn:Ecr; destruct l as [|c2 l].
      + rewrite andb_false_r, replace_free by exact Hc. reflexivity.
      + apply String.eqb_eq in Ecr. subst c. simpl andb.
        inversion Hl' as [|? ? Hc2 Hl'']; subst.
        rewrite replace_skip, join_cons.
        change (q c2 ++ join_chunks l) with (String quote (c2 ++ join_chunks l)).
        rewrite qend_app, drop_app_length.
        rewrite replace_free by exact Hc2. rewrite IH by (simpl in Hlen; lia || assumption).
        rewrite !join_cons. unfold q. unfold qend.
        rewrite sapp_cons, sapp_assoc. reflexivity.
      + rewrite andb_false_r, replace_free by exact Hc. reflexivity.
      + simpl andb. rewrite replace_free by exact Hc.
        rewrite IH by (lia || assumption). reflexivity. }
  apply (Hgen (length cs)); [lia|exact Hcs].
Qed.

Lemma exact_rw_nth (r f : string) (cs : list string) (i : nat) (t : string) :
  nth_error cs i = Some t -> t <> r -> nth_error (exact_rw r f cs) i = Some t.
Proof.
  intros Hi Ht.
  assert (Hgen : forall n l i, length l <= n -> nth_error l i = Some t ->
                 nth_error (exact_rw r f l) i = Some t).
  { induction n as [|n IH]; intros l j Hlen Hj.
    - destruct l; [exact Hj|simpl in Hlen; lia].
    - destruct l as [|c l]; [exact Hj|]. rewrite exact_rw_cons.
      simpl in Hlen. destruct (String.eqb c r) eqn:Ecr.
      + apply String.eqb_eq in Ecr. destruct l as [|c2 l]; [exact Hj|].
        destruct j as [|[|j]]; simpl in Hj |- *.
        * congruence.
        * exact Hj.
        * apply IH; [simpl in Hlen; lia|exact Hj].
      + destruct j as [|j]; simpl in Hj |- *; [exact Hj|].
        apply IH; [lia|exact Hj]. }
  apply (Hgen (length cs)); [lia|exact Hi].
Qed.

Lemma exact_rw_qfree (r f : string) (cs : list string) :
  qfree f -> Forall qfree cs -> Forall qfree (exact_rw r f cs).
Proof.
  intros Hf Hcs.
  assert (Hgen : forall n l, length l <= n -> Forall qfree l -> Forall qfree (exact_rw r f l)).
  { induction n as [|n IH]; intros l Hlen Hl.
    - destruct l; [constructor|simpl in Hlen; lia].
    - destruct l as [|c l]; [constructor|]. rewrite exact_rw_cons.
      simpl in Hlen. inversion Hl as [|? ? Hc Hl']; subst.
      destruct (String.eqb c r); [destruct l as [|c2 l]|].
      + constructor; [exact Hc|constructor].
      + inversion Hl'; subst. constructor; [exact Hf|].
        constructor; [assumption|]. apply IH; [simpl in Hlen; lia|assumption].
      + constructor; [exact Hc|]. apply IH; [lia|exact Hl']. }
  apply (Hgen (length cs)); [lia|exact Hcs].
Qed.

Lemma qfree_app_slash (s : string) : qfree s -> qfree (s ++ "/").
Proof. unfold qfree, has_quote. intros H. rewrite has_char_app, H. reflexivity. Qed.

Lemma fork_subst_chunks (root fork c0 : string) (cs : list string) :
  qfree root -> qfree fork -> Forall qfree (c0 :: cs) ->
  fork_subst root fork (c0 ++ join_chunks cs)
  = c0 ++ join_chunks
         (exact_rw root fork (map (chunk_rw (root ++ "/") (fork ++ "/")) cs)).
Proof.
  intros Hr Hf Hall. unfold fork_subst. rewrite !bytes_Replace_q.
  rewrite replace_chunks by first [apply qfree_app_slash; exact Hr | exact Hall].
  apply replace_exact; [exact Hr|].
  inversion Hall as [|? ? Hc0 Hcs]; subst. constructor; [exact Hc0|].
  apply Forall_map. eapply Forall_impl; [exact Hcs|].
  intros c Hc. apply chunk_rw_qfree; [apply qfree_app_slash|]; assumption.
Qed.

(* ------------------------------------------------------------------ *)
(** ** Where keys are matched *)

(** C2 (counterexample): the simple mode rewrites a key that follows a
    space, not a double quote. *)
Lemma C2_counterexample :
  rewrite_blob_simple [("gx/ipfs/QmA/x", "github.com/a/x")]
    "// see gx/ipfs/QmA/x for details"
  = "// see github.com/a/x for details".
Proof. vm_compute. reflexivity. Qed.

(** bytes.Replace(s, k, v, -1) replaces the leftmost occurrence of [k],
    whatever byte precedes it, and then every later one *)
Lemma replace_first (k v a b : string) :
  k <> "" ->
  (forall j, j < String.length a -> String.prefix k (drop j (a ++ k ++ b)) = false) ->
  bytes_Replace (a ++ k ++ b) k v = a ++ v ++ bytes_Replace b k v.
Proof.
  intros Hk Ha. destruct k as [|x k]; [contradiction|].
  change (bytes_Replace (a ++ String x k ++ b) (String x k) v)
    with (replace_go (String x k) v 0 (a ++ String x k ++ b)).
  change (bytes_Replace b (String x k) v) with (replace_go (String x k) v 0 b).
  induction a as [|c a IH].
  - cbn [String.append]. rewrite replace_go_0_cons.
    rewrite <- sapp_cons, prefix_app_self.
    rewrite replace_skip. change (pred (String.length (String x k))) with (String.length k).
    now rewrite drop_app_length.
  - rewrite sapp_cons, replace_go_0_cons.
    pose proof (Ha 0 ltac:(simpl; lia)) as H0. cbn [drop] in H0.
    rewrite sapp_cons in H0. rewrite H0, IH; [reflexivity|].
    intros j Hj. exact (Ha (S j) ltac:(simpl; lia)).
Qed.

(** C2 (amended): in the embedding mode a key is only ever matched right
    after a double quote. Cut at its double quotes, the content keeps the
    piece before the first quote, and each later piece is rewritten only
    at its start (when it begins with a key). In the simple mode a key is
    replaced wherever it occurs: whatever the iteration order, when the
    pass reaches entry (k, v) with the content still as it was, the
    leftmost occurrence of k, at any offset and after any byte (e.g. in a
    comment), becomes v, and so does every later occurrence. *)
Theorem rewrite_keys_quoted_only (rw : list (string * string)) (s : string)
  (Hrw : forall k v, In (k, v) rw -> qfree k /\ qfree v) :
  split_quotes (rewrite_keys_embed rw s)
  = (fst (split_quotes s), map (chunk_rewrite rw) (snd (split_quotes s))) /\
  (forall pre post k v a b, k <> "" ->
     rewrite_blob_simple pre (a ++ k ++ b) = a ++ k ++ b ->
     (forall j, j < String.length a -> String.prefix k (drop j (a ++ k ++ b)) = false) ->
     rewrite_blob_simple (pre ++ (k, v) :: post) (a ++ k ++ b)
     = rewrite_blob_simple post (a ++ v ++ bytes_Replace b k v)).
Proof.
  split.
  - destruct (join_split s) as [Hs Hall].
    destruct (split_quotes s) as [c0 cs]. simpl in Hs, Hall |- *.
    rewrite Hs, keys_chunks by assumption.
    apply split_join.
    inversion Hall as [|? ? Hc0 Hcs]; subst. constructor; [exact Hc0|].
    apply Forall_map. eapply Forall_impl; [exact Hcs|].
    intros c Hc. apply chunk_rewrite_qfree; assumption.
  - intros pre post k v a b Hk Hpre Ha. unfold rewrite_blob_simple in *.
    rewrite fold_left_app, Hpre. cbn [fold_left].
    rewrite (replace_first k v a b Hk Ha). reflexivity.
Qed.

Lemma rewrite_keys_quoted_only_witness :
  split_quotes (rewrite_keys_embed [("gx/ipfs/QmA/x", "github.com/a/x")]
                  ("// gx/ipfs/QmA/x" ++ String quote "gx/ipfs/QmA/x/y"))
  = ("// gx/ipfs/QmA/x", ["github.com/a/x/y"]) /\
  rewrite_blob_simple [("gx/ipfs/QmA/x", "github.com/a/x")]
    ("// see " ++ "gx/ipfs/QmA/x" ++ " for details")
  = "// see " ++ "github.com/a/x" ++ " for details".
Proof.
  destruct (rewrite_keys_quoted_only [("gx/ipfs/QmA/x", "github.com/a/x")]
              ("// gx/ipfs/QmA/x" ++ String quote "gx/ipfs/QmA/x/y")) as [H Hs].
  - intros k v Hin. destruct Hin as [Hin|[]]. injection Hin as <- <-.
    split; reflexivity.
  - split; [rewrite H; vm_compute; reflexivity|].
    change [("gx/ipfs/QmA/x", "github.com/a/x")]
      with (app [] [("gx/ipfs/QmA/x", "github.com/a/x")]).
    rewrite (Hs [] [] "gx/ipfs/QmA/x" "github.com/a/x" "// see " " for details").
    + vm_compute. reflexivity.
    + discriminate.
    + reflexivity.
    + intros j Hj. do 7 (destruct j as [|j]; [reflexivity|]). simpl in Hj. lia.
Defined.

(* ------------------------------------------------------------------ *)
(** ** The fork rename touches the root token only *)

(** C8: when a fork identity is given, a quoted token other than the root
    identity itself and not of the form <root>/..., in particular a token
    that merely shares a prefix with the root identity (root github.com/a/b,
    token github.com/a/bee), is left as it is by the fork substitution. *)
Theorem fork_subst_keeps_other_tokens (root fork s t : string) (i : nat)
  (Hr : qfree root) (Hf : qfree fork)
  (Hi : nth_error (snd (split_quotes s)) i = Some t)
  (Hne : t <> root) (Hnp : String.prefix (root ++ "/") t = false) :
  nth_error (snd (split_quotes (fork_subst root fork s))) i = Some t.
Proof.
  destruct (join_split s) as [Hs Hall].
  destruct (split_quotes s) as [c0 cs]. simpl in Hs, Hall, Hi |- *.
  rewrite Hs, fork_subst_chunks by assumption.
  inversion Hall as [|? ? Hc0 Hcs]; subst.
  rewrite split_join.
  - simpl. apply exact_rw_nth; [|exact Hne].
    rewrite nth_error_map, Hi. simpl. unfold chunk_rw. now rewrite Hnp.
  - constructor; [exact Hc0|]. apply exact_rw_qfree; [exact Hf|].
    apply Forall_map. eapply Forall_impl; [exact Hcs|].
    intros c Hc. apply chunk_rw_qfree; [apply qfree_app_slash|]; assumption.
Qed.

Definition fork_example_src : string :=
  "import " ++ q (qend "github.com/a/bee") ++ "; import " ++ q (qend "github.com/a/b/sub").

Lemma fork_subst_keeps_other_tokens_witness :
  nth_error (snd (split_quotes fork_example_src)) 0 = Some "github.com/a/bee" /\
  nth_error (snd (split_quotes (fork_subst "github.com/a/b" "github.com/me/fork"
                                   fork_example_src))) 0
  = Some "github.com/a/bee".
Proof.
  split; [vm_compute; reflexivity|].
  apply (fork_subst_keeps_other_tokens "github.com/a/b" "github.com/me/fork"
           fork_example_src "github.com/a/bee" 0);
    [reflexivity|reflexivity|vm_compute; reflexivity|discriminate|reflexivity].
Defined.

(* ------------------------------------------------------------------ *)
(** ** The marker regexp *)

Lemma has_quote_cons (c : ascii) (s : string) :
  has_quote (String c s) = if ascii_dec c quote then true else has_quote s.
Proof. reflexivity. Qed.

Lemma has_char_cons (x c : ascii) (s : string) :
  has_char x (String c s) = if ascii_dec c x then true else has_char x s.
Proof. reflexivity. Qed.

Lemma lql_cons (c : ascii) (s : string) :
  last_quote_line (String c s)
  = if ascii_dec c newline then None
    else match last_quote_line s with
         | Some n => Some (S n)
         | None => if ascii_dec c quote then Some 0 else None
         end.
Proof. reflexivity. Qed.

Lemma strip_go_0_cons (c : ascii) (s : string) :
  strip_go 0 (String c s)
  = match marker_match (String c s) with
    | Some m => strip_go (pred m) s
    | None => String c (strip_go 0 s)
    end.
Proof. reflexivity. Qed.

Lemma strip_skip (k : nat) (s : string) : strip_go k s = strip_go 0 (drop k s).
Proof.
  revert k. induction s as [|c s IH]; intros k; destruct k as [|k]; simpl;
    try reflexivity.
  now rewrite IH.
Qed.

Lemma drop_add (a b : nat) (s : string) : drop (a + b) s = drop b (drop a s).
Proof.
  revert s. induction a as [|a IH]; intros s; [reflexivity|].
  destruct s as [|c s]; simpl; [destruct b; reflexivity|apply IH].
Qed.

(** A match whose length is [S m] consumes [S m] bytes. *)
Lemma strip_at_match (s : string) (m : nat) :
  marker_match s = Some (S m) -> strip_go 0 s = strip_go 0 (drop (S m) s).
Proof.
  destruct s as [|c s]; [discriminate|].
  intros H. rewrite strip_go_0_cons, H. simpl. apply strip_skip.
Qed.

(** A quote-free text [x] in front of [y] is kept, provided no match can
    start inside [x] and reach into [y]. *)
Lemma strip_app_free (x y : string) :
  has_quote x = false ->
  (forall c x', has_quote (String c x') = false ->
     String.prefix marker_open (String c (x' ++ y)) = false) ->
  strip_go 0 (x ++ y) = x ++ strip_go 0 y.
Proof.
  intros Hx Hy. induction x as [|c x IH]; [reflexivity|].
  rewrite sapp_cons, strip_go_0_cons. unfold marker_match.
  rewrite (Hy c x Hx). rewrite IH; [reflexivity|].
  rewrite has_quote_cons in Hx. destruct (ascii_dec c quote); [discriminate|exact Hx].
Qed.

(** Walks a concrete prefix pattern against [String c (x ++ y)], one byte
    of the quote-free [x] at a time. *)
Ltac no_marker_straddle Hq :=
  repeat match goal with
  | |- String.prefix (String ?p ?P) (String ?c (?x ++ ?y)) = false =>
      rewrite prefix_cons;
      destruct (ascii_dec p c) as [<-|]; [|reflexivity];
      rewrite has_quote_cons in Hq;
      destruct (ascii_dec p quote) as [_|Hpq]; [discriminate Hq|];
      first [ exfalso; apply Hpq; reflexivity
            | clear Hpq; destruct x as [|? x]; cbn [String.append]; [try reflexivity|] ]
  end.

Lemma marker_straddle_open (c : ascii) (x r : string) :
  has_quote (String c x) = false ->
  String.prefix marker_open (String c (x ++ marker_open ++ r)) = false.
Proof.
  intros Hq. unfold marker_open. cbn [String.append].
  no_marker_straddle Hq.
Qed.

Lemma marker_straddle_newline (c : ascii) (x r : string) :
  has_quote (String c x) = false ->
  String.prefix marker_open (String c (x ++ String newline r)) = false.
Proof.
  intros Hq. unfold marker_open. cbn [String.append].
  no_marker_straddle Hq.
Qed.

Lemma lql_app_newline (r rest : string) :
  has_char newline r = false ->
  last_quote_line (r ++ String newline rest) = last_quote_line r.
Proof.
  induction r as [|c r IH]; intros Hr.
  - change ("" ++ String newline rest) with (String newline rest).
    rewrite lql_cons. destruct (ascii_dec newline newline); [reflexivity|contradiction].
  - rewrite sapp_cons, !lql_cons. rewrite has_char_cons in Hr.
    destruct (ascii_dec c newline); [discriminate|]. now rewrite IH.
Qed.

Lemma lql_lt (r : string) (n : nat) : last_quote_line r = Some n -> n < String.length r.
Proof.
  revert n. induction r as [|c r IH]; intros n H; [discriminate|].
  rewrite lql_cons in H. simpl.
  destruct (ascii_dec c newline); [discriminate|].
  destruct (last_quote_line r) as [n'|].
  - injection H as <-. specialize (IH n' eq_refl). lia.
  - destruct (ascii_dec c quote); [injection H as <-; lia|discriminate].
Qed.

Lemma lql_none_free (r : string) :
  has_char newline r = false -> last_quote_line r = None -> has_quote r = false.
Proof.
  induction r as [|c r IH]; intros Hr H; [reflexivity|].
  rewrite lql_cons in H. rewrite has_char_cons in Hr. rewrite has_quote_cons.
  destruct (ascii_dec c newline); [discriminate|].
  destruct (last_quote_line r); [discriminate|].
  destruct (ascii_dec c quote); [discriminate|]. now apply IH.
Qed.

Lemma lql_after_free (r : string) (n : nat) :
  has_char newline r = false -> last_quote_line r = Some n ->
  has_quote (drop (S n) r) = false.
Proof.
  revert n. induction r as [|c r IH]; intros n Hr H; [discriminate|].
  rewrite lql_cons in H. rewrite has_char_cons in Hr.
  destruct (ascii_dec c newline); [discriminate|].
  destruct (last_quote_line r) as [n'|] eqn:E.
  - injection H as <-. exact (IH n' Hr eq_refl).
  - destruct (ascii_dec c quote); [|discriminate]. injection H as <-.
    simpl. now apply lql_none_free.
Qed.

Lemma strip_newline (rest : string) :
  strip_go 0 (String newline rest) = String newline (strip_go 0 rest).
Proof. reflexivity. Qed.

Lemma strip_marker_line_aux (a r rest : string) (n : nat) :
  has_quote a = false -> has_char newline r = false -> last_quote_line r = Some n ->
  strip_go 0 (a ++ marker_open ++ r ++ String newline rest)
  = a ++ drop (S n) r ++ String newline (strip_go 0 rest).
Proof.
  intros Ha Hr Hn.
  rewrite strip_app_free by (exact Ha || (intros; apply marker_straddle_open; assumption)).
  f_equal.
  assert (Hm : marker_match (marker_open ++ r ++ String newline rest)
               = Some (S (10 + S n))).
  { unfold marker_match. rewrite prefix_app_self, drop_app_length, lql_app_newline, Hn
      by exact Hr.
    reflexivity. }
  rewrite (strip_at_match _ _ Hm).
  change (S (10 + S n)) with (String.length marker_open + S n).
  rewrite drop_add, drop_app_length, drop_app by (apply lql_lt in Hn; lia).
  rewrite strip_app_free.
  - now rewrite strip_newline.
  - exact (lql_after_free r n Hr Hn).
  - intros. apply marker_straddle_newline. assumption.
Qed.


(* ------------------------------------------------------------------ *)
(** ** Running the per-file rewrite a second time *)

(** no regexp match starts anywhere in [t] *)
Definition no_match (t : string) : Prop := forall j, marker_match (drop j t) = None.

Lemma drop_nil (j : nat) : drop j "" = "".
Proof. destruct j; reflexivity. Qed.

Lemma slength_drop (n : nat) (s : string) :
  String.length (drop n s) = String.length s - n.
Proof.
  revert s. induction n as [|n IH]; intros [|c s]; simpl; try lia. apply IH.
Qed.

Lemma marker_match_len (s : string) (m : nat) :
  marker_match s = Some m -> 11 < m /\ m <= String.length s.
Proof.
  unfold marker_match. destruct (String.prefix marker_open s) eqn:P; [|discriminate].
  destruct (last_quote_line (drop (String.length marker_open) s)) as [n|] eqn:E;
    [|discriminate].
  intros H. injection H as <-. apply lql_lt in E. rewrite slength_drop in E.
  apply prefix_length in P. change (String.length marker_open) with 11 in *. lia.
Qed.

Lemma strip_no_match (t : string) : no_match t -> strip_go 0 t = t.
Proof.
  induction t as [|c t IH]; intros H; [reflexivity|].
  pose proof (H 0) as H0. cbn [drop] in H0.
  rewrite strip_go_0_cons, H0. f_equal. apply IH. intros j. exact (H (S j)).
Qed.

Lemma prefix_app_l (k x y : string) :
  String.prefix k x = true -> String.prefix k (x ++ y) = true.
Proof.
  revert x. induction k as [|a k IH]; intros x H; [apply prefix_nil|].
  destruct x as [|c x]; [discriminate|]. rewrite sapp_cons, prefix_cons.
  rewrite prefix_cons in H. destruct (ascii_dec a c); [now apply IH|discriminate].
Qed.

Lemma prefix_app_long (k x y : string) :
  String.length k <= String.length x -> String.prefix k (x ++ y) = String.prefix k x.
Proof.
  revert x. induction k as [|a k IH]; intros x H; [now rewrite !prefix_nil|].
  destruct x as [|c x]; simpl in H; [lia|]. rewrite sapp_cons, !prefix_cons.
  destruct (ascii_dec a c); [apply IH; lia|reflexivity].
Qed.

Lemma prefix_split (k x y : string) :
  String.prefix k (x ++ y) = true -> String.length x < String.length k ->
  String.prefix (drop (String.length x) k) y = true.
Proof.
  revert k. induction x as [|c x IH]; intros k H Hl; [exact H|].
  destruct k as [|a k]; simpl in Hl; [lia|].
  rewrite sapp_cons, prefix_cons in H. destruct (ascii_dec a c); [|discriminate].
  simpl. apply IH; [exact H|lia].
Qed.

Lemma prefix_has_char (a : ascii) (k t : string) :
  String.prefix k t = true -> has_char a k = true -> has_char a t = true.
Proof.
  revert t. induction k as [|b k IH]; intros t H Hk; [discriminate|].
  destruct t as [|c t]; [discriminate|].
  rewrite prefix_cons in H. destruct (ascii_dec b c) as [<-|]; [|discriminate].
  rewrite has_char_cons in Hk |- *. destruct (ascii_dec b a); [reflexivity|].
  now apply IH.
Qed.

Lemma marker_tail_quote (n : nat) : n < 11 -> has_quote (drop n marker_open) = true.
Proof. intros H. do 11 (destruct n as [|n]; [reflexivity|]). lia. Qed.

Lemma prefix_marker_short (x y : string) :
  has_quote y = false -> String.length x <= 10 ->
  String.prefix marker_open (x ++ y) = false.
Proof.
  intros Hy Hx. destruct (String.prefix marker_open (x ++ y)) eqn:P; [|reflexivity].
  apply prefix_split in P; [|change (String.length marker_open) with 11; lia].
  pose proof (prefix_has_char quote _ _ P (marker_tail_quote (String.length x) ltac:(lia))) as H.
  unfold has_quote in Hy. congruence.
Qed.

Lemma no_match_free (t : string) : has_quote t = false -> no_match t.
Proof.
  intros Ht j. unfold marker_match.
  destruct (String.prefix marker_open (drop j t)) eqn:P; [|reflexivity].
  exfalso. pose proof (prefix_has_char quote _ _ P eq_refl) as H.
  rewrite (has_char_drop quote j t Ht) in H. discriminate.
Qed.

Lemma lql_app_some (x w : string) (n : nat) :
  has_char newline x = false -> last_quote_line w = Some n ->
  exists n', last_quote_line (x ++ w) = Some n'.
Proof.
  intros Hx Hw. induction x as [|c x IH]; [exists n; exact Hw|].
  rewrite has_char_cons in Hx. destruct (ascii_dec c newline); [discriminate|].
  destruct (IH Hx) as [n' E]. exists (S n'). rewrite sapp_cons, lql_cons, E.
  destruct (ascii_dec c newline); [contradiction|reflexivity].
Qed.

Lemma lql_drop_some (k : nat) (s : string) (n : nat) :
  has_char newline s = false -> last_quote_line (drop k s) = Some n ->
  exists n', last_quote_line s = Some n'.
Proof.
  revert s n. induction k as [|k IH]; intros s n Hs H; [exists n; exact H|].
  destruct s as [|c s]; [rewrite drop_nil in H; discriminate|].
  change (drop (S k) (String c s)) with (drop k s) in H.
  rewrite has_char_cons in Hs. destruct (ascii_dec c newline); [discriminate|].
  destruct (IH s n Hs H) as [n' E]. exists (S n'). rewrite lql_cons, E.
  destruct (ascii_dec c newline); [contradiction|reflexivity].
Qed.

(** the first match of a line, if any *)
Lemma strip_first (l : string) :
  (no_match l /\ strip_go 0 l = l) \/
  exists u w m, l = u ++ w /\ marker_match w = Some (S m) /\
    (forall j, j < String.length u -> marker_match (drop j l) = None) /\
    strip_go 0 l = u ++ strip_go 0 (drop (S m) w).
Proof.
  induction l as [|c l IH].
  - left. split; [intros j; now rewrite drop_nil|reflexivity].
  - destruct (marker_match (String c l)) as [[|m]|] eqn:E.
    + apply marker_match_len in E. lia.
    + right. exists "", (String c l), m. split; [reflexivity|]. split; [exact E|].
      split; [intros j Hj; simpl in Hj; lia|]. exact (strip_at_match _ _ E).
    + rewrite strip_go_0_cons, E.
      destruct IH as [[Hn Hs]|(u & w & m & -> & Hm & Hb & Hs)].
      * left. split; [|now rewrite Hs]. intros [|j]; [exact E|exact (Hn j)].
      * right. exists (String c u), w, m. split; [reflexivity|]. split; [exact Hm|].
        split; [|now rewrite Hs].
        intros [|j] Hj; [exact E|]. exact (Hb j ltac:(simpl in Hj; lia)).
Qed.

(** on one line, no match is left after stripping *)
Lemma strip_line_no_match (l : string) :
  has_char newline l = false -> no_match (strip_go 0 l).
Proof.
  intros Hl. destruct (strip_first l) as [[Hn Hs]|(u & w & m & -> & Hm & Hb & Hs)].
  { rewrite Hs. exact Hn. }
  rewrite Hs. rewrite has_char_app in Hl. apply orb_false_iff in Hl as [Hu Hw].
  unfold marker_match in Hm.
  destruct (String.prefix marker_open w) eqn:Pw; [|discriminate].
  destruct (last_quote_line (drop (String.length marker_open) w)) as [n|] eqn:Ew;
    [|discriminate].
  injection Hm as Hm.
  assert (Em : S m = String.length marker_open + S n)
    by (change (String.length marker_open) with 11 in *; lia).
  rewrite Em, drop_add.
  set (after := drop (S n) (drop (String.length marker_open) w)).
  assert (Hafter : has_quote after = false)
    by exact (lql_after_free _ n (has_char_drop _ _ _ Hw) Ew).
  rewrite (strip_no_match after (no_match_free after Hafter)).
  intros j. destruct (Nat.lt_ge_cases j (String.length u)) as [Hj|Hj].
  - rewrite drop_app by lia. unfold marker_match.
    destruct (String.prefix marker_open (drop j u ++ after)) eqn:P; [|reflexivity].
    exfalso.
    destruct (Nat.le_gt_cases (String.length (drop j u)) 10) as [Hs'|Hs'].
    + rewrite prefix_marker_short in P by assumption. discriminate.
    + rewrite prefix_app_long in P by (change (String.length marker_open) with 11; lia).
      specialize (Hb j Hj). rewrite drop_app in Hb by lia.
      unfold marker_match in Hb. rewrite (prefix_app_l _ _ w P) in Hb.
      rewrite drop_app in Hb by (change (String.length marker_open) with 11; lia).
      destruct (lql_drop_some _ _ _ Hw Ew) as [n' Ew'].
      destruct (lql_app_some (drop (String.length marker_open) (drop j u)) w n'
                  (has_char_drop _ _ _ (has_char_drop _ _ _ Hu)) Ew') as [n'' E''].
      rewrite E'' in Hb. discriminate.
  - replace j with (String.length u + (j - String.length u)) by lia.
    rewrite drop_add, drop_app_length.
    exact (no_match_free after Hafter (j - String.length u)).
Qed.

Lemma prefix_newline_false (k rest : string) :
  has_char newline k = false -> k <> "" -> String.prefix k (String newline rest) = false.
Proof.
  intros Hk Hne. destruct k as [|a k]; [congruence|].
  rewrite prefix_cons. rewrite has_char_cons in Hk.
  destruct (ascii_dec a newline); [discriminate|reflexivity].
Qed.

(** a match never reaches past the end of its line *)
Lemma marker_match_line (x rest : string) :
  has_char newline x = false ->
  marker_match (x ++ String newline rest) = marker_match x.
Proof.
  intros Hx. unfold marker_match.
  destruct (Nat.le_gt_cases (String.length marker_open) (String.length x)) as [Hl|Hl].
  - rewrite prefix_app_long by exact Hl.
    destruct (String.prefix marker_open x); [|reflexivity].
    rewrite drop_app by exact Hl.
    rewrite lql_app_newline by (apply has_char_drop; exact Hx).
    reflexivity.
  - replace (String.prefix marker_open x) with false.
    2:{ destruct (String.prefix marker_open x) eqn:P; [|reflexivity].
        apply prefix_length in P. lia. }
    destruct (String.prefix marker_open (x ++ String newline rest)) eqn:P; [|reflexivity].
    apply prefix_split in P; [|exact Hl].
    assert (Hq : has_quote (drop (String.length x) marker_open) = true)
      by (apply marker_tail_quote; change (String.length marker_open) with 11 in Hl; exact Hl).
    rewrite prefix_newline_false in P; [discriminate| |].
    + apply has_char_drop. reflexivity.
    + intros E. rewrite E in Hq. discriminate.
Qed.

Lemma strip_lines (l rest : string) (k : nat) :
  has_char newline l = false -> k <= String.length l ->
  strip_go k (l ++ String newline rest)
  = strip_go k l ++ String newline (strip_go 0 rest).
Proof.
  revert k. induction l as [|c l IH]; intros k Hl Hk.
  - simpl in Hk. assert (k = 0) as -> by lia. reflexivity.
  - pose proof (marker_match_line (String c l) rest Hl) as Hml.
    change (String c l ++ String newline rest)
      with (String c (l ++ String newline rest)) in Hml.
    rewrite has_char_cons in Hl. destruct (ascii_dec c newline); [discriminate|].
    rewrite sapp_cons. destruct k as [|k].
    + rewrite !strip_go_0_cons, Hml.
      destruct (marker_match (String c l)) as [m|] eqn:E.
      * apply marker_match_len in E. simpl in E. apply IH; [exact Hl|lia].
      * rewrite IH by (exact Hl || lia). reflexivity.
    + simpl in Hk. exact (IH k Hl ltac:(lia)).
Qed.

Lemma strip_newline_free (l : string) (k : nat) :
  has_char newline l = false -> has_char newline (strip_go k l) = false.
Proof.
  revert k. induction l as [|c l IH]; intros k Hl; [destruct k; reflexivity|].
  rewrite has_char_cons in Hl. destruct (ascii_dec c newline) as [|Hc]; [discriminate|].
  destruct k as [|k]; [|exact (IH k Hl)].
  rewrite strip_go_0_cons. destruct (marker_match (String c l)); [exact (IH _ Hl)|].
  rewrite has_char_cons. destruct (ascii_dec c newline); [contradiction|exact (IH 0 Hl)].
Qed.

Lemma line_split (s : string) :
  has_char newline s = false \/
  exists l rest, s = l ++ String newline rest /\ has_char newline l = false /\
                 String.length rest < String.length s.
Proof.
  induction s as [|c s IH]; [left; reflexivity|].
  rewrite has_char_cons. destruct (ascii_dec c newline) as [->|Hc].
  - right. exists "", s. split; [reflexivity|]. split; [reflexivity|simpl; lia].
  - destruct IH as [H|(l & rest & -> & Hl & Hlen)]; [left; exact H|].
    right. exists (String c l), rest. split; [reflexivity|]. split.
    + rewrite has_char_cons. destruct (ascii_dec c newline); [contradiction|exact Hl].
    + simpl. lia.
Qed.

(** stripping twice strips nothing more *)
Lemma strip_idem (s : string) : strip_go 0 (strip_go 0 s) = strip_go 0 s.
Proof.
  assert (Hgen : forall n s, String.length s <= n ->
                 strip_go 0 (strip_go 0 s) = strip_go 0 s).
  { induction n as [|n IH]; intros s' Hs;
      destruct (line_split s') as [H|(l & rest & -> & Hl & Hlen)].
    1,3: exact (strip_no_match _ (strip_line_no_match _ H)).
    - lia.
    - rewrite strip_lines by (exact Hl || lia).
      rewrite strip_lines by first [apply strip_newline_free; exact Hl | lia].
      rewrite (strip_no_match (strip_go 0 l) (strip_line_no_match l Hl)).
      rewrite (IH rest ltac:(lia)). reflexivity. }
  exact (Hgen _ s (le_n _)).
Qed.

Lemma chunk_rewrite_id (rw : list (string * string)) (c : string) :
  (forall k v, In (k, v) rw -> String.prefix k c = false) -> chunk_rewrite rw c = c.
Proof.
  unfold chunk_rewrite. induction rw as [|[k v] rw IH]; intros H; [reflexivity|].
  cbn [fold_left].
  replace (chunk_rw k v c) with c
    by (unfold chunk_rw; now rewrite (H k v (or_introl eq_refl))).
  apply IH. intros k' v' Hin. apply (H k' v'). right. exact Hin.
Qed.

Lemma exact_rw_id (r f : string) (cs : list string) :
  (forall c, In c cs -> c <> r) -> exact_rw r f cs = cs.
Proof.
  induction cs as [|c cs IH]; intros H; [reflexivity|].
  rewrite exact_rw_cons. destruct (String.eqb c r) eqn:E.
  - apply String.eqb_eq in E. exfalso. exact (H c (or_introl eq_refl) E).
  - f_equal. apply IH. intros c' Hc'. apply H. right. exact Hc'.
Qed.

Lemma keys_pass_id (rw : list (string * string)) (t : string) :
  (forall k v, In (k, v) rw -> qfree k /\ qfree v) ->
  (forall c k v, In c (snd (split_quotes t)) -> In (k, v) rw ->
     String.prefix k c = false) ->
  rewrite_keys_embed rw t = t.
Proof.
  intros Hrw H. destruct (join_split t) as [Ht Hall].
  destruct (split_quotes t) as [c0 cs]. simpl in Ht, Hall, H.
  rewrite Ht, keys_chunks by assumption. f_equal. f_equal.
  clear - H. induction cs as [|c cs IHc]; [reflexivity|]. simpl. f_equal.
  - apply chunk_rewrite_id. intros k v Hin. exact (H c k v (or_introl eq_refl) Hin).
  - apply IHc. intros c' k v Hc' Hin. exact (H c' k v (or_intror Hc') Hin).
Qed.

Lemma fork_pass_id (root fork t : string) :
  qfree root -> qfree fork ->
  (forall c, In c (snd (split_quotes t)) ->
     String.prefix (root ++ "/") c = false /\ c <> root) ->
  fork_subst root fork t = t.
Proof.
  intros Hr Hf H. destruct (join_split t) as [Ht Hall].
  destruct (split_quotes t) as [c0 cs]. simpl in Ht, Hall, H.
  rewrite Ht, fork_subst_chunks by assumption. f_equal. f_equal.
  assert (Hm : map (chunk_rw (root ++ "/") (fork ++ "/")) cs = cs).
  { clear - H. induction cs as [|c cs IHc]; [reflexivity|]. simpl. f_equal.
    - unfold chunk_rw. now rewrite (proj1 (H c (or_introl eq_refl))).
    - apply IHc. intros c' Hc'. apply H. right. exact Hc'. }
  rewrite Hm. apply exact_rw_id. intros c Hc. exact (proj2 (H c Hc)).
Qed.

Lemma replace_absent (o n x : string) :
  (forall j, String.prefix o (drop j x) = false) -> replace_go o n 0 x = x.
Proof.
  induction x as [|c x IH]; intros H; [reflexivity|].
  pose proof (H 0) as H0. cbn [drop] in H0.
  rewrite replace_go_0_cons, H0. f_equal. apply IH. intros j. exact (H (S j)).
Qed.

Lemma simple_pass_id (rw : list (string * string)) (t : string) :
  (forall k v, In (k, v) rw -> k <> "" /\ forall j, String.prefix k (drop j t) = false) ->
  rewrite_blob_simple rw t = t.
Proof.
  unfold rewrite_blob_simple. induction rw as [|[k v] rw IH]; intros H; [reflexivity|].
  cbn [fold_left]. destruct (H k v (or_introl eq_refl)) as [Hk Hj].
  replace (bytes_Replace t k v) with t.
  - apply IH. intros k' v' Hin. exact (H k' v' (or_intror Hin)).
  - unfold bytes_Replace. destruct k as [|a k]; [congruence|].
    symmetry. apply replace_absent. exact Hj.
Qed.

(** stripping works line by line, whatever the lines before hold *)
Lemma strip_app_line (pre y : string) :
  strip_go 0 (pre ++ String newline y) = strip_go 0 pre ++ String newline (strip_go 0 y).
Proof.
  assert (Hgen : forall n pre, String.length pre <= n ->
    strip_go 0 (pre ++ String newline y) = strip_go 0 pre ++ String newline (strip_go 0 y)).
  { induction n as [|n IH]; intros p Hp;
      destruct (line_split p) as [H|(l & rest & -> & Hl & Hlen)].
    1,3: exact (strip_lines p y 0 H ltac:(lia)).
    - lia.
    - rewrite sapp_assoc, sapp_cons.
      rewrite (strip_lines l (rest ++ String newline y) 0 Hl ltac:(lia)).
      rewrite (strip_lines l rest 0 Hl ltac:(lia)).
      rewrite (IH rest ltac:(lia)).
      rewrite sapp_assoc. reflexivity. }
  exact (Hgen _ pre (le_n _)).
Qed.

(** text in front of which no [marker_open] starts is kept as it is *)
Lemma strip_prefix_kept (u w : string) :
  (forall j, j < String.length u -> String.prefix marker_open (drop j (u ++ w)) = false) ->
  strip_go 0 (u ++ w) = u ++ strip_go 0 w.
Proof.
  induction u as [|c u IH]; intros H; [reflexivity|].
  rewrite sapp_cons, strip_go_0_cons.
  pose proof (H 0 ltac:(simpl; lia)) as H0. cbn [drop] in H0. rewrite sapp_cons in H0.
  unfold marker_match at 1. rewrite H0. rewrite IH; [reflexivity|].
  intros j Hj. exact (H (S j) ltac:(simpl; lia)).
Qed.

(** C3 (counterexample): the simple mode keeps a marker, and the
    embedding mode removes text after the marker up to the last double
    quote of the line. *)
Lemma C3_counterexample :
  rewrite_blob_simple [] ("package p " ++ marker_open ++ qend "a/b")
  = "package p " ++ marker_open ++ qend "a/b" /\
  restrict_ReplaceAll ("package p " ++ marker_open ++ qend "a/b" ++ " // " ++ q (qend "c"))
  = "package p ".
Proof. split; vm_compute; reflexivity. Qed.

(** C3 (code bug): in the embedding mode the regexp [// import ".*"] is
    greedy. On the line of a marker (the lines before it may hold
    anything, and the text [u] in front of the marker on its line holds no
    other [marker_open]), everything from [marker_open] up to the LAST
    double quote of the line is deleted: [r] up to its index [n], not only
    the marker's own closing quote; [u], what follows that last quote, the
    newline and the other lines are stripped independently. The simple
    mode has no marker rule: content in which no key occurs is returned as
    it is, markers included, whatever the map. *)
Theorem strip_marker_line (pre u r rest : string) (n : nat)
  (Hpre : pre = "" \/ exists p, pre = p ++ String newline "")
  (Hu : forall j, j < String.length u ->
          String.prefix marker_open (drop j (u ++ marker_open)) = false)
  (Hr : has_char newline r = false)
  (Hn : last_quote_line r = Some n) :
  restrict_ReplaceAll (pre ++ u ++ marker_open ++ r ++ String newline rest)
  = restrict_ReplaceAll pre ++ u ++ drop (S n) r ++ String newline (restrict_ReplaceAll rest) /\
  (forall rw s,
     (forall k v, In (k, v) rw -> k <> "" /\ forall j, String.prefix k (drop j s) = false) ->
     rewrite_blob_simple rw s = s).
Proof.
  split; [|exact simple_pass_id].
  unfold restrict_ReplaceAll.
  assert (Hline : strip_go 0 (u ++ marker_open ++ r ++ String newline rest)
                  = u ++ drop (S n) r ++ String newline (strip_go 0 rest)).
  { rewrite strip_prefix_kept.
    - f_equal. exact (strip_marker_line_aux "" r rest n eq_refl Hr Hn).
    - intros j Hj. specialize (Hu j Hj).
      rewrite <- sapp_assoc, drop_app by (rewrite slength_app; lia).
      rewrite prefix_app_long; [exact Hu|].
      rewrite slength_drop, slength_app. change (String.length marker_open) with 11. lia. }
  destruct Hpre as [->|[p ->]].
  - exact Hline.
  - rewrite sapp_assoc. cbn [String.append].
    rewrite strip_app_line, Hline, strip_app_line.
    rewrite sapp_assoc. reflexivity.
Qed.

Lemma strip_marker_line_witness :
  restrict_ReplaceAll ("// Licensed " ++ q (qend "AS IS") ++ String newline ""
                       ++ "package p " ++ marker_open ++ qend "a/b" ++ " // " ++ qend "c"
                       ++ String newline "x")
  = "// Licensed " ++ q (qend "AS IS") ++ String newline "package p " ++ String newline "x".
Proof.
  destruct (strip_marker_line ("// Licensed " ++ q (qend "AS IS") ++ String newline "")
              "package p " (qend "a/b" ++ " // " ++ qend "c") "x" 9)
    as [H _].
  - right. exists ("// Licensed " ++ q (qend "AS IS")). vm_compute. reflexivity.
  - intros j Hj. do 10 (destruct j as [|j]; [reflexivity|]). simpl in Hj. lia.
  - reflexivity.
  - reflexivity.
  - refine (eq_trans _ (eq_trans H _)); vm_compute; reflexivity.
Defined.

Definition fork_v2_src : string := "import " ++ q (qend "github.com/orig/proj/sub").

(** C7 (counterexample): with a fork path that extends the root path,
    every pass renames the root again. *)
Lemma C7_counterexample :
  rewrite_blob_embed [] "github.com/orig/proj" "github.com/orig/proj/v2" fork_v2_src
  = "import " ++ q (qend "github.com/orig/proj/v2/sub") /\
  rewrite_blob_embed [] "github.com/orig/proj" "github.com/orig/proj/v2"
    (rewrite_blob_embed [] "github.com/orig/proj" "github.com/orig/proj/v2" fork_v2_src)
  = "import " ++ q (qend "github.com/orig/proj/v2/v2/sub").
Proof. split; vm_compute; reflexivity. Qed.

(** C7 (amended): a second pass changes nothing when nothing in the output
    of the first pass can match again, whatever order the second pass
    ranges over the same map in. In the embedding mode (keys, root and
    fork free of double quotes): if no piece of the output after a double
    quote starts with a key and, with a fork, none starts with [<root>/]
    or equals [<root>], the second pass returns the same bytes. The marker
    stripping alone is idempotent on any content. In the simple mode: if
    no (non-empty) key occurs anywhere in the output, the second pass
    returns the same bytes. *)
Theorem rewrite_pass_idempotent_when (rw rw' : list (string * string)) (root fork s : string)
  (Hperm : Permutation rw rw')
  (Hrw : forall k v, In (k, v) rw -> qfree k /\ qfree v)
  (Hr : qfree root) (Hf : qfree fork)
  (Hkeys : forall c k v,
     In c (snd (split_quotes (rewrite_blob_embed rw root fork s))) ->
     In (k, v) rw -> String.prefix k c = false)
  (Hroot : fork <> "" -> forall c,
     In c (snd (split_quotes (rewrite_blob_embed rw root fork s))) ->
     String.prefix (root ++ "/") c = false /\ c <> root) :
  rewrite_blob_embed rw' root fork (rewrite_blob_embed rw root fork s)
  = rewrite_blob_embed rw root fork s /\
  (forall t, restrict_ReplaceAll (restrict_ReplaceAll t) = restrict_ReplaceAll t) /\
  (forall rw1 rw2 t, Permutation rw1 rw2 ->
     (forall k v, In (k, v) rw1 -> k <> "" /\
        forall j, String.prefix k (drop j (rewrite_blob_simple rw1 t)) = false) ->
     rewrite_blob_simple rw2 (rewrite_blob_simple rw1 t) = rewrite_blob_simple rw1 t).
Proof.
  split; [|split].
  2:{ intros t. apply strip_idem. }
  2:{ intros rw1 rw2 t Hp H. apply simple_pass_id. intros k v Hin.
      apply (H k v). exact (Permutation_in _ (Permutation_sym Hp) Hin). }
  assert (Hback : forall k v, In (k, v) rw' -> In (k, v) rw)
    by (intros k v Hin; exact (Permutation_in _ (Permutation_sym Hperm) Hin)).
  set (t := rewrite_blob_embed rw root fork s) in *.
  assert (Ht : restrict_ReplaceAll t = t).
  { unfold t, rewrite_blob_embed, restrict_ReplaceAll. cbv zeta. apply strip_idem. }
  unfold rewrite_blob_embed at 1. cbv zeta.
  rewrite keys_pass_id.
  2:{ intros k v Hin. exact (Hrw k v (Hback k v Hin)). }
  2:{ intros c k v Hc Hin. exact (Hkeys c k v Hc (Hback k v Hin)). }
  destruct (String.eqb fork "") eqn:E.
  - exact Ht.
  - rewrite fork_pass_id; [exact Ht|exact Hr|exact Hf|].
    apply Hroot. intros ->. discriminate E.
Qed.

Definition idem_example_src : string :=
  "import " ++ q (qend "gx/ipfs/QmA/x") ++ " // import " ++ q (qend "github.com/me/proj").

Definition idem_example_map : list (string * string) :=
  [("gx/ipfs/QmA/x", "github.com/a/x"); ("gx/ipfs/QmB/y", "github.com/b/y")].

Lemma rewrite_pass_idempotent_when_witness :
  rewrite_blob_embed (rev idem_example_map)
    "github.com/me/proj" "github.com/you/proj"
    (rewrite_blob_embed idem_example_map
       "github.com/me/proj" "github.com/you/proj" idem_example_src)
  = rewrite_blob_embed idem_example_map
      "github.com/me/proj" "github.com/you/proj" idem_example_src.
Proof.
  destruct (rewrite_pass_idempotent_when idem_example_map (rev idem_example_map)
              "github.com/me/proj" "github.com/you/proj" idem_example_src) as [H _].
  - apply Permutation_rev.
  - intros k v [E|[E|[]]]; injection E as <- <-; split; reflexivity.
  - reflexivity.
  - reflexivity.
  - intros c k v Hc Hk. vm_compute in Hc.
    destruct Hk as [E|[E|[]]]; injection E as <- <-;
      destruct Hc as [<-|[<-|[]]]; reflexivity.
  - intros _ c Hc. vm_compute in Hc.
    destruct Hc as [<-|[<-|[]]]; split; (reflexivity || discriminate).
  - exact H.
Defined.

(* ------------------------------------------------------------------ *)
(** ** Colliding packages in the conversion loop *)

(** every run of [m] from a state satisfying [P] ends in one satisfying [P] *)
Definition preserves (P : St -> Prop) {A : Type} (m : M A) : Prop :=
  forall st st' r, P st -> m st = (st', r) -> P st'.

Lemma pres_ret (P : St -> Prop) {A : Type} (a : A) : preserves P (mret a).
Proof. intros st st' r H E. cbv [mret M_ret] in E. injection E as <- _. exact H. Qed.

Lemma pres_bind (P : St -> Prop) {A B : Type} (m : M A) (k : A -> M B) :
  preserves P m -> (forall a, preserves P (k a)) -> preserves P (mbind k m).
Proof.
  intros Hm Hk st st' r H E. cbv [mbind M_bind] in E.
  destruct (m st) as [st1 [e|a]] eqn:Em.
  - injection E as <- _. exact (Hm _ _ _ H Em).
  - exact (Hk a _ _ _ (Hm _ _ _ H Em) E).
Qed.

Lemma pres_forM (P : St -> Prop) {A : Type} (l : list A) (f : A -> M unit) :
  (forall x, In x l -> preserves P (f x)) -> preserves P (forM_ l f).
Proof.
  induction l as [|x l IH]; intros H; cbn [forM_]; [apply pres_ret|].
  apply pres_bind; [apply H; left; reflexivity|]. intros _.
  apply IH. intros y Hy. apply H. right. exact Hy.
Qed.

Lemma pres_exec (P : St -> Prop) (env : fs_env) (op : fsop) (msg : string) :
  (forall log rw, P (log, rw) -> P (app log [op], rw)) -> preserves P (exec env op msg).
Proof.
  intros H [log rw] st' r Hst E. cbv [exec] in E. injection E as <- _. exact (H _ _ Hst).
Qed.

Lemma pres_set (P : St -> Prop) (k v : string) :
  (forall log rw, P (log, rw) -> P (log, <[k := v]> rw)) -> preserves P (set_rewrite k v).
Proof.
  intros H [log rw] st' r Hst E. cbv [set_rewrite] in E. injection E as <- _.
  exact (H _ _ Hst).
Qed.

Lemma pres_read_dir (P : St -> Prop) (env : fs_env) (p : list string) (msg : string) :
  preserves P (read_dir env p msg).
Proof. intros st st' r Hst E. cbv [read_dir] in E. injection E as <- _. exact Hst. Qed.

Lemma forM_cons_eq {A : Type} (x : A) (l : list A) (f : A -> M unit) (st : St) :
  forM_ (x :: l) f st
  = match f x st with
    | (st1, inl e) => (st1, inl e)
    | (st1, inr _) => forM_ l f st1
    end.
Proof. reflexivity. Qed.

(** a loop that ran to its end ran every iteration to its end *)
Lemma forM_split {A : Type} (l : list A) (f : A -> M unit) (x : A) (st st' : St) :
  forM_ l f st = (st', inr tt) -> In x l ->
  exists l1 l2 stA stB, l = app l1 (x :: l2) /\ f x stA = (stB, inr tt) /\
    forM_ l2 f stB = (st', inr tt).
Proof.
  revert st. induction l as [|y l IH]; intros st H Hx; [destruct Hx|].
  rewrite forM_cons_eq in H. destruct (f y st) as [st1 [e|[]]] eqn:E; [discriminate|].
  destruct Hx as [<-|Hx].
  - exists [], l, st, st1. split; [reflexivity|split; assumption].
  - destruct (IH st1 H Hx) as (l1 & l2 & stA & stB & -> & H1 & H2).
    exists (y :: l1), l2, stA, stB. split; [reflexivity|split; assumption].
Qed.

Lemma nodup_fst_unique {A B : Type} (l : list (A * B)) (a : A) (b b' : B) :
  NoDup (map fst l) -> In (a, b) l -> In (a, b') l -> b = b'.
Proof.
  induction l as [|[x y] l IH]; intros Hnd H1 H2; [destruct H1|].
  simpl in Hnd. inversion Hnd as [|? ? Hx Hnd']; subst.
  destruct H1 as [E1|H1]; destruct H2 as [E2|H2].
  - congruence.
  - injection E1 as <- <-. exfalso. apply Hx. apply list_elem_of_In. exact (in_map fst _ _ H2).
  - injection E2 as <- <-. exfalso. apply Hx. apply list_elem_of_In. exact (in_map fst _ _ H1).
  - exact (IH Hnd' H1 H2).
Qed.

Lemma sapp_cancel_l (a x y : string) : a ++ x = a ++ y -> x = y.
Proof.
  induction a as [|c a IH]; intros H; [exact H|].
  rewrite !sapp_cons in H. injection H as H. exact (IH H).
Qed.

Lemma has_slash_mid (a b : string) : has_char slash (a ++ String slash b) = true.
Proof.
  rewrite has_char_app, has_char_cons.
  destruct (ascii_dec slash slash); [|contradiction]. apply orb_true_r.
Qed.

Lemma slash_free_split (a b x y : string) :
  has_char slash a = false -> has_char slash b = false ->
  a ++ String slash x = b ++ String slash y -> a = b.
Proof.
  revert b. induction a as [|c a IH]; intros b Ha Hb E.
  - destruct b as [|c' b]; [reflexivity|]. exfalso.
    change ("" ++ String slash x) with (String slash x) in E.
    rewrite sapp_cons in E. injection E as Ec _.
    rewrite has_char_cons in Hb. destruct (ascii_dec c' slash); [discriminate|congruence].
  - destruct b as [|c' b].
    + exfalso. change ("" ++ String slash y) with (String slash y) in E.
      rewrite sapp_cons in E. injection E as Ec _.
      rewrite has_char_cons in Ha. destruct (ascii_dec c slash); [discriminate|congruence].
    + rewrite !sapp_cons in E. injection E as <- E.
      rewrite has_char_cons in Ha, Hb. destruct (ascii_dec c slash); [discriminate|].
      f_equal. exact (IH b Ha Hb E).
Qed.

Lemma moves_rename_other (hash h : string) (rest dst : list string) :
  h <> hash -> moves_out_of hash (Rename (app gxpkgs (h :: rest)) dst) = false.
Proof.
  intros Hne. cbn. rewrite (proj2 (String.eqb_neq hash h)) by congruence. reflexivity.
Qed.

Lemma moves_remove_other (hash h : string) :
  h <> hash -> moves_out_of hash (Remove (app gxpkgs [h])) = false.
Proof.
  intros Hne. cbn. rewrite (proj2 (String.eqb_neq hash h)) by congruence. reflexivity.
Qed.

(** simple mode: nothing has left vendor/gx/ipfs/<hash> and no key
    gx/ipfs/<hash>/... is in the rewrite map *)
Definition kept_in_place (hash : string) (st : St) : Prop :=
  Forall (fun op => moves_out_of hash op = false) (fst st) /\
  forall d, snd st !! ("gx/ipfs/" ++ hash ++ "/" ++ d) = None.

Lemma kept_exec (hash : string) (op : fsop) (log : list fsop) (rw : gmap string string) :
  moves_out_of hash op = false -> kept_in_place hash (log, rw) ->
  kept_in_place hash (app log [op], rw).
Proof.
  intros Hop [Hl Hr]. split; [|exact Hr].
  apply Forall_app. split; [exact Hl|]. constructor; [exact Hop|constructor].
Qed.

Lemma convert_simple_kept (env : fs_env) (versions : gmap string nat) (hash h p : string) :
  h <> hash -> has_char slash h = false -> has_char slash hash = false ->
  preserves (kept_in_place hash) (convert_simple env versions h p).
Proof.
  intros Hne Hh Hhash. unfold convert_simple.
  destruct (clashes versions p); [apply pres_ret|].
  apply pres_bind; [apply pres_exec; intros; apply kept_exec; [reflexivity|assumption]|intros _].
  apply pres_bind; [apply pres_read_dir|intros dirs].
  apply pres_bind; [|intros _].
  - apply pres_forM. intros dir _. apply pres_bind.
    + apply pres_exec. intros. apply kept_exec; [|assumption].
      exact (moves_rename_other hash h [dir] ["vendor"; p] Hne).
    + intros _. apply pres_set. intros log rw [Hl Hr]. split; [exact Hl|]. intros d.
      cbn [snd]. rewrite lookup_insert_ne; [exact (Hr d)|].
      intros E. apply sapp_cancel_l in E.
      change ("/" ++ dir) with (String slash dir) in E.
      change ("/" ++ d) with (String slash d) in E.
      apply slash_free_split in E; [congruence|assumption|assumption].
  - apply pres_exec. intros. apply kept_exec; [|assumption].
    exact (moves_remove_other hash h Hne).
Qed.

(** embedding mode: the package directory was moved to gxlibs/ipfs/<hash>
    and gx/ipfs/<hash> is mapped to <root>/gxlibs/ipfs/<hash> *)
Definition embedded_at (hash root : string) (st : St) : Prop :=
  In (Rename (app gxpkgs [hash]) ["gxlibs"; "ipfs"; hash]) (fst st) /\
  snd st !! ("gx/ipfs/" ++ hash) = Some (root ++ "/gxlibs/ipfs/" ++ hash).

Lemma embedded_exec (hash root : string) (op : fsop) (log : list fsop)
  (rw : gmap string string) :
  embedded_at hash root (log, rw) -> embedded_at hash root (app log [op], rw).
Proof. intros [Hl Hr]. split; [apply in_or_app; left; exact Hl|exact Hr]. Qed.

Lemma embedded_set (hash root k v : string) (log : list fsop) (rw : gmap string string) :
  k <> "gx/ipfs/" ++ hash ->
  embedded_at hash root (log, rw) -> embedded_at hash root (log, <[k := v]> rw).
Proof.
  intros Hk [Hl Hr]. split; [exact Hl|]. cbn [snd]. rewrite lookup_insert_ne by exact Hk.
  exact Hr.
Qed.

Lemma convert_embed_embedded (env : fs_env) (penv : probe_env) (workspace root : string)
  (versions : gmap string nat) (hash h p : string) :
  h <> hash -> has_char slash hash = false -> p <> "gx/ipfs/" ++ hash ->
  preserves (embedded_at hash root) (convert_embed env penv workspace root versions h p).
Proof.
  intros Hne Hhash Hp.
  assert (Hsub : forall dir, "gx/ipfs/" ++ h ++ "/" ++ dir <> "gx/ipfs/" ++ hash).
  { intros dir E. apply sapp_cancel_l in E. rewrite <- E in Hhash.
    change ("/" ++ dir) with (String slash dir) in Hhash.
    rewrite has_slash_mid in Hhash. discriminate. }
  assert (Hpre : forall op log rw, embedded_at hash root (log, rw) ->
                 embedded_at hash root (app log [op], rw))
    by (intros; apply embedded_exec; assumption).
  unfold convert_embed. destruct (clashes versions p).
  - apply pres_bind; [apply pres_exec, Hpre|intros _].
    apply pres_bind; [apply pres_exec, Hpre|intros _].
    apply pres_set. intros log rw. apply embedded_set.
    intros E. apply sapp_cancel_l in E. congruence.
  - apply pres_bind; [|intros _; apply pres_exec, Hpre].
    destruct (shouldEmbed penv workspace p).
    + apply pres_bind; [apply pres_exec, Hpre|intros _].
      apply pres_bind; [apply pres_read_dir|intros dirs].
      apply pres_forM. intros dir _.
      apply pres_bind; [apply pres_exec, Hpre|intros _].
      apply pres_bind; [apply pres_set; intros log rw; apply embedded_set, Hsub|intros _].
      apply pres_set. intros log rw. apply embedded_set, Hp.
    + apply pres_bind; [apply pres_exec, Hpre|intros _].
      apply pres_bind; [apply pres_read_dir|intros dirs].
      apply pres_forM. intros dir _.
      apply pres_bind; [apply pres_exec, Hpre|intros _].
      apply pres_set. intros log rw. apply embedded_set, Hsub.
Qed.

Definition clash_versions : gmap string nat :=
  <["golang.org/x/z" := 1%nat]> (<["github.com/x/y" := 2%nat]> ∅).

Definition clash_order : list (string * string) :=
  [("QmA", "github.com/x/y"); ("QmC", "golang.org/x/z"); ("QmB", "github.com/x/y")].

Definition clash_run_embed : St * (string + unit) :=
  run_embed (fs_env_spec (JObj [])) (probe_env_status 200) "/tmp/ws" "github.com/me/proj"
    clash_versions clash_order ([], ∅).

(** C1 (counterexample): two packages share the canonical path
    github.com/x/y. In the embedding mode the directory of the first one
    is moved out of vendor/gx/ipfs, and the two members are mapped to two
    different paths, one per hash. *)
Lemma C1_counterexample :
  clashes clash_versions "github.com/x/y" = true /\
  snd clash_run_embed = inr tt /\
  existsb (moves_out_of "QmA") (fst (fst clash_run_embed)) = true /\
  snd (fst clash_run_embed) !! "gx/ipfs/QmA" = Some "github.com/me/proj/gxlibs/ipfs/QmA" /\
  snd (fst clash_run_embed) !! "gx/ipfs/QmB" = Some "github.com/me/proj/gxlibs/ipfs/QmB".
Proof. vm_compute. repeat split. Qed.

(** C1 (amended): let [hash] be a member of a collision group (its
    canonical path is counted more than once), hash directory names
    containing no slash. In the simple mode (main.go), whatever the run
    does and however it ends, no file system operation takes anything out
    of vendor/gx/ipfs/<hash> and no key gx/ipfs/<hash>/... enters the
    rewrite map. In the embedding mode, a run that completes has moved
    the whole directory vendor/gx/ipfs/<hash> to gxlibs/ipfs/<hash> and
    maps gx/ipfs/<hash> to <root>/gxlibs/ipfs/<hash>, a path of its own
    for each member (given that no canonical path is gx/ipfs/<hash>). *)
Theorem colliding_members (env : fs_env) (penv : probe_env) (workspace root : string)
  (versions : gmap string nat) (order : list (string * string)) (hash path : string)
  (Hnd : NoDup (map fst order))
  (Hslash : forall h p, In (h, p) order -> has_char slash h = false)
  (Hnotgx : forall h p, In (h, p) order -> p <> "gx/ipfs/" ++ hash)
  (Hin : In (hash, path) order) (Hcl : clashes versions path = true) :
  (forall st' r, run_simple env versions order ([], ∅) = (st', r) ->
     Forall (fun op => moves_out_of hash op = false) (fst st') /\
     forall d, snd st' !! ("gx/ipfs/" ++ hash ++ "/" ++ d) = None) /\
  (forall st', run_embed env penv workspace root versions order ([], ∅) = (st', inr tt) ->
     In (Rename (app gxpkgs [hash]) ["gxlibs"; "ipfs"; hash]) (fst st') /\
     snd st' !! ("gx/ipfs/" ++ hash) = Some (root ++ "/gxlibs/ipfs/" ++ hash)).
Proof.
  split.
  - intros st' r Hrun. unfold run_simple in Hrun.
    assert (H0 : kept_in_place hash ([], ∅)).
    { split; [constructor|intros d; apply lookup_empty]. }
    refine (pres_forM (kept_in_place hash) order _ _ _ _ _ H0 Hrun).
    intros [h p] Hhp. cbn beta iota.
    destruct (String.eq_dec h hash) as [->|Hne].
    + rewrite (nodup_fst_unique order hash p path Hnd Hhp Hin).
      unfold convert_simple. rewrite Hcl. apply pres_ret.
    + apply convert_simple_kept; [exact Hne|exact (Hslash h p Hhp)|exact (Hslash hash path Hin)].
  - intros st' Hrun. unfold run_embed in Hrun.
    destruct (forM_split _ _ (hash, path) _ _ Hrun Hin) as (l1 & l2 & stA & stB & Eo & HA & HB).
    change (convert_embed env penv workspace root versions hash path stA = (stB, inr tt))
      in HA.
    assert (HstB : embedded_at hash root stB).
    { unfold convert_embed in HA. rewrite Hcl in HA. destruct stA as [log rw].
      cbv [mbind M_bind exec set_rewrite] in HA.
      destruct (fs_ok env (MkdirAll ["gxlibs"; "ipfs"])); [|discriminate].
      destruct (fs_ok env (Rename (app gxpkgs [hash]) ["gxlibs"; "ipfs"; hash]));
        [|discriminate].
      injection HA as <-. split.
      - cbn [fst]. apply in_or_app. right. left. reflexivity.
      - cbn [snd]. apply lookup_insert_eq. }
    refine (pres_forM (embedded_at hash root) l2 _ _ _ _ _ HstB HB).
    intros [h p] Hhp. cbn beta iota.
    assert (Hne : h <> hash).
    { intros ->. rewrite Eo, map_app in Hnd. cbn [map] in Hnd.
      apply NoDup_app in Hnd as (_ & _ & Hnd). apply NoDup_cons in Hnd as [Hn _].
      apply Hn. apply list_elem_of_In. exact (in_map fst _ _ Hhp). }
    apply convert_embed_embedded; [exact Hne|exact (Hslash hash path Hin)|].
    apply (Hnotgx h p). rewrite Eo. apply in_or_app. right. right. exact Hhp.
Qed.

Lemma colliding_members_witness :
  snd (fst clash_run_embed) !! ("gx/ipfs/" ++ "QmB")
  = Some ("github.com/me/proj" ++ "/gxlibs/ipfs/" ++ "QmB").
Proof.
  destruct (colliding_members (fs_env_spec (JObj [])) (probe_env_status 200) "/tmp/ws"
              "github.com/me/proj" clash_versions clash_order "QmB" "github.com/x/y")
    as [_ H].
  - apply (bool_decide_unpack _). vm_compute. exact I.
  - intros h p Hhp. vm_compute in Hhp.
    destruct Hhp as [E|[E|[E|[]]]]; injection E as <- _; reflexivity.
  - intros h p Hhp. vm_compute in Hhp.
    destruct Hhp as [E|[E|[E|[]]]]; injection E as _ <-; discriminate.
  - right. right. left. reflexivity.
  - vm_compute. reflexivity.
  - apply (H (fst clash_run_embed)). vm_compute. reflexivity.
Defined.

(* ================================================================== *)
(** * Further properties of the code *)

(* ------------------------------------------------------------------ *)
(** ** strings.HasSuffix and filepath.Base: which walked files are Go files *)

Lemma substring_drop (n : nat) (s : string) : s = substring 0 n s ++ drop n s.
Proof.
  revert n. induction s as [|c s IH]; intros n; destruct n as [|n]; try reflexivity.
  cbn [substring drop]. rewrite sapp_cons. f_equal. apply IH.
Qed.

Lemma HasSuffix_spec (s suf : string) :
  HasSuffix s suf = true <-> exists pre, s = pre ++ suf.
Proof.
  unfold HasSuffix. split.
  - intros H. apply andb_true_iff in H as [_ He]. apply String.eqb_eq in He.
    exists (substring 0 (String.length s - String.length suf) s).
    pose proof (substring_drop (String.length s - String.length suf) s) as E.
    rewrite He in E. exact E.
  - intros [pre ->]. rewrite slength_app.
    replace (String.length pre + String.length suf - String.length suf)
      with (String.length pre) by lia.
    rewrite drop_app_length, String.eqb_refl, andb_true_r.
    apply Nat.leb_le. lia.
Qed.

Lemma sts_cons (c : ascii) (s : string) :
  strip_trailing_slashes (String c s)
  = match strip_trailing_slashes s with
    | EmptyString => if ascii_dec c slash then EmptyString else String c EmptyString
    | t => String c t
    end.
Proof. cbn [strip_trailing_slashes]. destruct (strip_trailing_slashes s); reflexivity. Qed.

Lemma als_cons (c : ascii) (s : string) :
  after_last_slash (String c s)
  = if has_char slash s then after_last_slash s
    else if ascii_dec c slash then s else String c s.
Proof. reflexivity. Qed.

Lemma sts_free (b : string) :
  b <> "" -> has_char slash b = false -> strip_trailing_slashes b = b.
Proof.
  induction b as [|c s IH]; intros Hne Hb; [congruence|].
  rewrite has_char_cons in Hb. destruct (ascii_dec c slash) as [_|Hc]; [discriminate|].
  rewrite sts_cons. destruct s as [|c' s'].
  - change (strip_trailing_slashes "") with "".
    destruct (ascii_dec c slash); [contradiction|reflexivity].
  - rewrite IH by (discriminate || exact Hb). reflexivity.
Qed.

Lemma sts_app (x y : string) :
  strip_trailing_slashes y <> "" ->
  strip_trailing_slashes (x ++ y) = x ++ strip_trailing_slashes y.
Proof.
  intros Hy. induction x as [|c x IH]; [reflexivity|].
  rewrite sapp_cons, sts_cons, IH.
  destruct (x ++ strip_trailing_slashes y) as [|c' t] eqn:E; [|rewrite <- E; reflexivity].
  exfalso. destruct x as [|c0 x]; [exact (Hy E)|discriminate].
Qed.

Lemma als_app (x b : string) :
  has_char slash b = false -> after_last_slash (x ++ String slash b) = b.
Proof.
  intros Hb. induction x as [|c x IH].
  - change ("" ++ String slash b) with (String slash b).
    rewrite als_cons, Hb. destruct (ascii_dec slash slash); [reflexivity|contradiction].
  - rewrite sapp_cons, als_cons, has_slash_mid. exact IH.
Qed.

(** Walked file a/b: the callback's [fi.Name()] is b, and the file is
    treated as a Go file exactly when b ends in ".go". *)
Theorem go_file_iff (a b : string) (Hb : b <> "") (Hs : has_char slash b = false) :
  filepath_Base (a ++ "/" ++ b) = b /\
  (HasSuffix (filepath_Base (a ++ "/" ++ b)) ".go" = true <->
   exists stem, b = stem ++ ".go").
Proof.
  assert (Hbase : filepath_Base (a ++ "/" ++ b) = b).
  { change ("/" ++ b) with (String slash b).
    assert (Hst : strip_trailing_slashes (String slash b) = String slash b).
    { rewrite sts_cons, (sts_free b Hb Hs). destruct b; [congruence|reflexivity]. }
    unfold filepath_Base.
    destruct (a ++ String slash b) as [|c r] eqn:E.
    { destruct a; discriminate. }
    rewrite <- E, sts_app by (rewrite Hst; discriminate).
    rewrite Hst, als_app by exact Hs. destruct b; [congruence|reflexivity]. }
  split; [exact Hbase|]. rewrite Hbase. apply HasSuffix_spec.
Qed.

Lemma go_file_iff_witness :
  ("main.go" <> "" /\ has_char slash "main.go" = false) /\
  (filepath_Base ("./cmd" ++ "/" ++ "main.go") = "main.go" /\
   (HasSuffix (filepath_Base ("./cmd" ++ "/" ++ "main.go")) ".go" = true <->
    exists stem, "main.go" = stem ++ ".go")).
Proof.
  split; [split; [discriminate|reflexivity]|].
  apply (go_file_iff "./cmd" "main.go"); [discriminate|reflexivity].
Defined.

(* ------------------------------------------------------------------ *)
(** ** The URL the GitHub shortcut probes *)

(** For github.com/<rest>, the probe asks for
    https://raw.githubusercontent.com/<rest>/master/package.json and
    decides on that answer alone. *)
Theorem shouldEmbed_github_url (env : probe_env) (gopath rest : string) :
  shouldEmbed env gopath ("github.com/" ++ rest)
  = match http_Get env ("https://raw.githubusercontent.com/" ++ rest ++ "/master/package.json") with
    | None => true
    | Some code => Nat.eqb code 200
    end.
Proof.
  unfold shouldEmbed. unfold HasPrefix. rewrite prefix_app_self.
  assert (E : raw_url ("github.com/" ++ rest)
              = "https://raw.githubusercontent.com/" ++ rest ++ "/master/package.json")
    by reflexivity.
  rewrite E. reflexivity.
Qed.

(* ------------------------------------------------------------------ *)
(** ** Decoding the descriptor *)



(** A descriptor with exactly one gx member and, inside it, exactly one
    dvcsimport member holding a string yields that string; member names
    match as encoding/json matches them (exactly, or by ASCII case folding
    with U+017F for s) and all other members are ignored. *)
Theorem read_manifest_path (env : fs_env) (hash d0 blob : string) (ds : list string)
  (pre post ipre ipost : list (string * json)) (k k' p : string)
  (Hdir : ReadDir env (app gxpkgs [hash]) = Some (d0 :: ds))
  (Hfile : ReadFile env (app gxpkgs [hash; d0; "package.json"]) = Some blob)
  (Hparse : json_parse env blob
            = Some (JObj (pre ++ (k, JObj (ipre ++ (k', JStr p) :: ipost)) :: post)))
  (Hk : field_gx k = true) (Hk' : field_dvcsimport k' = true)
  (Hothers : forall k2 v2, In (k2, v2) (pre ++ post) -> field_gx k2 = false)
  (Hiothers : forall k2 v2, In (k2, v2) (ipre ++ ipost) -> field_dvcsimport k2 = false) :
  read_manifest env hash = Ok p.
Proof.
  unfold read_manifest, json_Unmarshal. rewrite Hdir, Hfile, Hparse.
  assert (H : decode_pkg (JObj (pre ++ (k, JObj (ipre ++ (k', JStr p) :: ipost)) :: post))
              = (p, true)).
  { change (decode_pkg (JObj (pre ++ (k, JObj (ipre ++ (k', JStr p) :: ipost)) :: post)))
      with (fold_left (dec_step field_gx decode_gx)
              (pre ++ (k, JObj (ipre ++ (k', JStr p) :: ipost)) :: post) (""%string, true)).
    rewrite (dec_one _ _ _ _ _ _ ""%string Hk Hothers).
    change (decode_gx "" (JObj (ipre ++ (k', JStr p) :: ipost)))
      with (fold_left (dec_step field_dvcsimport decode_path)
              (ipre ++ (k', JStr p) :: ipost) (""%string, true)).
    rewrite (dec_one _ _ _ _ _ _ ""%string Hk' Hiothers). reflexivity. }
  rewrite H. reflexivity.
Qed.

Definition desc_example : json :=
  JObj [("name", JStr "x"); ("Gx", JObj [("DvcsImport", JStr "github.com/x/y");
                                          ("version", JStr "1.0")])].

Lemma read_manifest_path_witness :
  read_manifest (fs_env_spec desc_example) "QmA" = Ok "github.com/x/y".
Proof.
  apply (read_manifest_path (fs_env_spec desc_example) "QmA" "proj" "{ ... }" []
           [("name", JStr "x")] [] [] [("version", JStr "1.0")] "Gx" "DvcsImport");
    try reflexivity.
  - intros k2 v2 H. destruct H as [E|[]]. injection E as <- _. reflexivity.
  - intros k2 v2 H. destruct H as [E|[]]. injection E as <- _. reflexivity.
Defined.

(* ------------------------------------------------------------------ *)
(** ** The marker regexp *)

(** [a] is obtained from [b] by deleting bytes ([a] is a subsequence of [b]) *)
Inductive deletes : string -> string -> Prop :=
| del_nil : deletes "" ""
| del_keep (c : ascii) (a b : string) : deletes a b -> deletes (String c a) (String c b)
| del_drop (c : ascii) (a b : string) : deletes a b -> deletes a (String c b).

Lemma strip_deletes (k : nat) (s : string) : deletes (strip_go k s) s.
Proof.
  revert k. induction s as [|c s IH]; intros k; [destruct k; constructor|].
  destruct k as [|k].
  - rewrite strip_go_0_cons. destruct (marker_match (String c s)).
    + apply del_drop, IH.
    + apply del_keep, IH.
  - cbn [strip_go]. apply del_drop, IH.
Qed.

(** restrict.ReplaceAll(b, nil) only deletes bytes of its input, removes
    nothing from content without a double quote, and a second application
    changes nothing. *)
Theorem restrict_ReplaceAll_props :
  (forall b, restrict_ReplaceAll (restrict_ReplaceAll b) = restrict_ReplaceAll b) /\
  (forall b, deletes (restrict_ReplaceAll b) b) /\
  (forall b, has_quote b = false -> restrict_ReplaceAll b = b).
Proof.
  unfold restrict_ReplaceAll. split; [|split].
  - intros b. apply strip_idem.
  - intros b. apply strip_deletes.
  - intros b Hb. apply strip_no_match, no_match_free, Hb.
Qed.

Lemma restrict_ReplaceAll_props_witness :
  restrict_ReplaceAll "package p // import x" = "package p // import x".
Proof. apply (proj2 (proj2 restrict_ReplaceAll_props)). reflexivity. Defined.

(* ------------------------------------------------------------------ *)
(** ** The fork substitution on a whole import *)

Lemma qq_join (x b : string) : q (qend x) ++ b = join_chunks [x; b].
Proof.
  cbn [join_chunks]. unfold q, qend. rewrite sapp_nil_r, sapp_cons, sapp_assoc.
  reflexivity.
Qed.

(** With a fork, an import "<root>/<sub>" becomes "<fork>/<sub>" and an
    import "<root>" becomes "<fork>", the text around it unchanged. *)
Theorem fork_subst_renames (root fork sub a b : string)
  (Hr : qfree root) (Hf : qfree fork) (Hsub : qfree sub) (Ha : qfree a) (Hb : qfree b)
  (Hbr : String.prefix (root ++ "/") b = false) (Hne : fork ++ "/" ++ sub <> root) :
  fork_subst root fork (a ++ q (qend (root ++ "/" ++ sub)) ++ b)
  = a ++ q (qend (fork ++ "/" ++ sub)) ++ b /\
  fork_subst root fork (a ++ q (qend root) ++ b) = a ++ q (qend fork) ++ b.
Proof.
  assert (Hslash : qfree "/") by reflexivity.
  assert (Hq : forall x y, qfree x -> qfree y -> qfree (x ++ y)).
  { unfold qfree, has_quote. intros x y Hx Hy. rewrite has_char_app, Hx, Hy. reflexivity. }
  assert (Hbw : chunk_rw (root ++ "/") (fork ++ "/") b = b).
  { unfold chunk_rw. rewrite Hbr. reflexivity. }
  split.
  - rewrite !qq_join.
    rewrite fork_subst_chunks by (try assumption; repeat constructor; auto).
    cbn [map]. rewrite Hbw.
    assert (E1 : chunk_rw (root ++ "/") (fork ++ "/") (root ++ "/" ++ sub) = fork ++ "/" ++ sub).
    { unfold chunk_rw. rewrite <- sapp_assoc, prefix_app_self, drop_app_length.
      apply sapp_assoc. }
    rewrite E1, exact_rw_cons.
    rewrite (proj2 (String.eqb_neq _ _) Hne), exact_rw_cons.
    destruct (String.eqb b root); reflexivity.
  - rewrite !qq_join.
    rewrite fork_subst_chunks by (try assumption; repeat constructor; auto).
    cbn [map]. rewrite Hbw.
    assert (E1 : chunk_rw (root ++ "/") (fork ++ "/") root = root).
    { unfold chunk_rw. destruct (String.prefix (root ++ "/") root) eqn:P; [|reflexivity].
      apply prefix_length in P. rewrite slength_app in P. cbn in P. lia. }
    rewrite E1, exact_rw_cons, String.eqb_refl. reflexivity.
Qed.

Lemma fork_subst_renames_witness :
  fork_subst "github.com/a/b" "github.com/me/b"
    ("import " ++ q (qend ("github.com/a/b" ++ "/" ++ "sub")) ++ String newline "")
  = "import " ++ q (qend ("github.com/me/b" ++ "/" ++ "sub")) ++ String newline "" /\
  fork_subst "github.com/a/b" "github.com/me/b"
    ("import " ++ q (qend "github.com/a/b") ++ String newline "")
  = "import " ++ q (qend "github.com/me/b") ++ String newline "".
Proof.
  apply (fork_subst_renames "github.com/a/b" "github.com/me/b" "sub" "import "
           (String newline "")); try reflexivity.
  apply String.eqb_neq. reflexivity.
Defined.

(* ------------------------------------------------------------------ *)
(** ** The manifest loop: mappings and clash counts *)

(** whether the manifest of [h] declares [path] *)
Definition ok_path (env : fs_env) (path h : string) : bool :=
  match read_manifest env h with
  | Ok p => String.eqb p path
  | _ => false
  end.

Lemma collect_gen (env : fs_env) (hashes : list string) (m0 m : gmap string string)
  (v0 v : gmap string nat) :
  collect env hashes m0 v0 = Ok (m, v) ->
  (forall h, In h hashes -> exists p, read_manifest env h = Ok p) /\
  (forall h p, m !! h = Some p <->
     (In h hashes /\ read_manifest env h = Ok p) \/ (~ In h hashes /\ m0 !! h = Some p)) /\
  (forall p, default 0 (v !! p) = default 0 (v0 !! p) + length (List.filter (ok_path env p) hashes)).
Proof.
  revert m0 v0. induction hashes as [|h0 rest IH]; intros m0 v0 H.
  - cbn [collect] in H. injection H as <- <-. split; [intros h []|split].
    + intros h p. split; [intros Hp; right; split; [intros []|exact Hp]|].
      intros [[[] _]|[_ Hp]]. exact Hp.
    + intros p. cbn. lia.
  - cbn [collect] in H. destruct (read_manifest env h0) as [path|msg|msg] eqn:Eh;
      try discriminate.
    destruct (IH _ _ H) as (H1 & H2 & H3). split; [|split].
    + intros h [<-|Hin]; [exists path; exact Eh|exact (H1 h Hin)].
    + intros h p. rewrite H2. destruct (string_dec h h0) as [->|Hne].
      * rewrite lookup_insert_eq. split.
        -- intros [[_ Hp]|[_ Hp]]; left; split; [left; reflexivity|exact Hp|
             left; reflexivity|injection Hp as <-; exact Eh].
        -- intros [[_ Hp]|[Hn _]]; [|exfalso; apply Hn; left; reflexivity].
           destruct (in_dec string_dec h0 rest) as [Hi|Hi]; [left; split; assumption|].
           right. split; [exact Hi|]. rewrite Eh in Hp. injection Hp as ->. reflexivity.
      * rewrite lookup_insert_ne by congruence. split.
        -- intros [[A B]|[A B]].
           ++ left. split; [right; exact A|exact B].
           ++ right. split; [intros [E|E]; [congruence|contradiction]|exact B].
        -- intros [[[E|A] B]|[A B]].
           ++ congruence.
           ++ left. split; assumption.
           ++ right. split; [intros E; apply A; right; exact E|exact B].
    + intros p. rewrite H3. cbn [List.filter].
      assert (Eo : ok_path env p h0 = String.eqb path p) by (unfold ok_path; rewrite Eh; reflexivity).
      rewrite Eo. destruct (String.eqb path p) eqn:Ep.
      * apply String.eqb_eq in Ep. subst p. rewrite lookup_insert_eq. cbn [length].
        unfold default. destruct (v0 !! path); cbn; lia.
      * apply String.eqb_neq in Ep. rewrite lookup_insert_ne by exact Ep. reflexivity.
Qed.

(** After the first loop completes, [mappings] holds exactly the listed
    hashes with the path each manifest declares, [versions[path]] counts
    the hashes declaring [path], and a path clashes exactly when at least
    two hashes declare it. *)
Theorem collect_counts (env : fs_env) (hashes : list string)
  (m : gmap string string) (v : gmap string nat)
  (H : collect env hashes ∅ ∅ = Ok (m, v)) :
  (forall h, In h hashes -> exists p, read_manifest env h = Ok p) /\
  (forall h p, m !! h = Some p <-> In h hashes /\ read_manifest env h = Ok p) /\
  (forall p, default 0 (v !! p) = length (List.filter (ok_path env p) hashes)) /\
  (forall p, clashes v p = true <-> (2 <= length (List.filter (ok_path env p) hashes))%nat).
Proof.
  destruct (collect_gen env hashes ∅ m ∅ v H) as (H1 & H2 & H3).
  assert (Hc : forall p, default 0 (v !! p) = length (List.filter (ok_path env p) hashes)).
  { intros p. rewrite H3, lookup_empty. reflexivity. }
  split; [exact H1|split; [|split; [exact Hc|]]].
  - intros h p. rewrite H2, lookup_empty. split.
    + intros [Hp|[_ Hp]]; [exact Hp|discriminate].
    + intros Hp. left. exact Hp.
  - intros p. unfold clashes. rewrite Hc, Nat.ltb_lt. lia.
Qed.

(** a vendor tree with three packages; QmC declares another path *)
Definition fs_env_pkgs : fs_env := {|
  ReadDir := fun _ => Some ["proj"];
  ReadFile := fun p => Some (nth 3 p "");
  fs_ok := fun _ => true;
  json_parse := fun blob =>
    Some (JObj [("gx", JObj [("dvcsimport",
      JStr (if String.eqb blob "QmC" then "golang.org/x/z" else "github.com/x/y"))])])
|}.

Definition collect_example : gmap string string * gmap string nat :=
  match collect fs_env_pkgs ["QmA"; "QmB"; "QmC"] ∅ ∅ with
  | Ok mv => mv
  | _ => (∅, ∅)
  end.

Lemma collect_counts_witness :
  collect fs_env_pkgs ["QmA"; "QmB"; "QmC"] ∅ ∅
  = Ok (fst collect_example, snd collect_example) /\
  clashes (snd collect_example) "github.com/x/y" = true /\
  clashes (snd collect_example) "golang.org/x/z" = false /\
  ((forall h, In h ["QmA"; "QmB"; "QmC"] -> exists p, read_manifest fs_env_pkgs h = Ok p) /\
   (forall h p, fst collect_example !! h = Some p <->
      In h ["QmA"; "QmB"; "QmC"] /\ read_manifest fs_env_pkgs h = Ok p) /\
   (forall p, default 0 (snd collect_example !! p)
              = length (List.filter (ok_path fs_env_pkgs p) ["QmA"; "QmB"; "QmC"])) /\
   (forall p, clashes (snd collect_example) p = true <->
      (2 <= length (List.filter (ok_path fs_env_pkgs p) ["QmA"; "QmB"; "QmC"]))%nat)).
Proof.
  split; [vm_compute; reflexivity|].
  split; [vm_compute; reflexivity|].
  split; [vm_compute; reflexivity|].
  apply (collect_counts fs_env_pkgs ["QmA"; "QmB"; "QmC"]). vm_compute. reflexivity.
Defined.

(** The first loop stops at the first package whose manifest cannot be
    read: its log.Fatalf or its panic is the program's outcome, whatever
    follows it in the listing. *)
Theorem collect_first_error (env : fs_env) (pre post : list string) (h : string)
  (m0 : gmap string string) (v0 : gmap string nat)
  (Hpre : forall x, In x pre -> exists p, read_manifest env x = Ok p) :
  (forall msg, read_manifest env h = Fatal msg -> collect env (pre ++ h :: post) m0 v0 = Fatal msg) /\
  (forall msg, read_manifest env h = Panic msg -> collect env (pre ++ h :: post) m0 v0 = Panic msg).
Proof.
  revert m0 v0. induction pre as [|x pre IH]; intros m0 v0.
  - split; intros msg E; cbn [app collect]; rewrite E; reflexivity.
  - destruct (Hpre x (or_introl eq_refl)) as [p Ex].
    assert (Hpre' : forall y, In y pre -> exists p, read_manifest env y = Ok p)
      by (intros y Hy; exact (Hpre y (or_intror Hy))).
    cbn [app collect]. rewrite Ex. exact (IH Hpre' _ _).
Qed.

(** QmEmpty is an empty directory *)
Definition fs_env_hole : fs_env := {|
  ReadDir := fun p => if existsb (String.eqb "QmEmpty") p then Some [] else Some ["proj"];
  ReadFile := fun _ => Some "{ ... }";
  fs_ok := fun _ => true;
  json_parse := fun _ => Some (JObj [("gx", JObj [("dvcsimport", JStr "github.com/x/y")])])
|}.

Lemma collect_first_error_witness :
  collect fs_env_hole (["QmA"] ++ "QmEmpty" :: ["QmC"]) ∅ ∅
  = Panic "runtime error: index out of range [0] with length 0".
Proof.
  apply (collect_first_error fs_env_hole ["QmA"] ["QmC"] "QmEmpty" ∅ ∅).
  - intros x [<-|[]]. eexists. reflexivity.
  - reflexivity.
Defined.

(* ------------------------------------------------------------------ *)
(** ** The walk *)

Lemma not_elem_of_In (x : string) (l : list string) : x ∉ l -> ~ In x l.
Proof. intros H Hin. apply H. apply list_elem_of_In. exact Hin. Qed.

(** After a walk that ends without error over distinct paths, no entry
    carried a Walk error, every visited Go file holds the callback's
    rewrite of its old content, and every path the walk did not visit is
    untouched. *)
Theorem walk_success (transform : string -> string -> string) (wok : string -> bool)
  (entries : list walk_entry) (fs fs' : store)
  (H : walk transform wok entries fs = (fs', None)) (Hnd : NoDup (map fp entries)) :
  (forall e, In e entries -> walk_err e = false) /\
  (forall e, In e entries -> is_dir e = false -> HasSuffix (filepath_Base (fp e)) ".go" = true ->
     exists b, fs (fp e) = Some b /\ fs' (fp e) = Some (transform (fp e) b)) /\
  (forall p, ~ In p (map fp entries) -> fs' p = fs p).
Proof.
  revert fs H. induction entries as [|e rest IH]; intros fs H.
  - cbn [walk] in H. injection H as <-. split; [intros e []|split; [intros e []|reflexivity]].
  - cbn [map] in Hnd. apply NoDup_cons in Hnd as [Hnotin Hnd].
    apply not_elem_of_In in Hnotin.
    cbn [walk] in H. destruct (walk_err e) eqn:Ee; [discriminate|].
    assert (Hrest : forall fs0, walk transform wok rest fs0 = (fs', None) ->
      (forall p, ~ In p (map fp (e :: rest)) -> fs' p = fs0 p) ->
      (forall e', In e' rest -> is_dir e' = false ->
         HasSuffix (filepath_Base (fp e')) ".go" = true -> fp e' <> fp e ->
         fs0 (fp e') = fs (fp e')) ->
      (is_dir e = false -> HasSuffix (filepath_Base (fp e)) ".go" = true ->
         exists b, fs (fp e) = Some b /\ fs' (fp e) = Some (transform (fp e) b)) ->
      (forall p, ~ In p (map fp (e :: rest)) -> fs' p = fs p) ->
      (forall e0, In e0 (e :: rest) -> walk_err e0 = false) /\
      (forall e0, In e0 (e :: rest) -> is_dir e0 = false ->
         HasSuffix (filepath_Base (fp e0)) ".go" = true ->
         exists b, fs (fp e0) = Some b /\ fs' (fp e0) = Some (transform (fp e0) b)) /\
      (forall p, ~ In p (map fp (e :: rest)) -> fs' p = fs p)).
    { intros fs0 Hw _ Hsame He Hframe.
      destruct (IH Hnd fs0 Hw) as (A & B & _).
      split; [intros e0 [<-|Hin]; [exact Ee|exact (A e0 Hin)]|split; [|exact Hframe]].
      intros e0 [<-|Hin] Hd Hg; [exact (He Hd Hg)|].
      destruct (B e0 Hin Hd Hg) as (b & Hb & Hb').
      exists b. split; [|exact Hb'].
      rewrite <- (Hsame e0 Hin Hd Hg); [exact Hb|].
      intros E. apply Hnotin. rewrite <- E. apply in_map. exact Hin. }
    destruct (is_dir e) eqn:Ed.
    + destruct (IH Hnd fs H) as (_ & _ & C).
      apply (Hrest fs H); try reflexivity.
      * intros p Hp. apply C. intros Hin. apply Hp. right. exact Hin.
      * intros Hd. discriminate.
      * intros p Hp. apply C. intros Hin. apply Hp. right. exact Hin.
    + destruct (HasSuffix (filepath_Base (fp e)) ".go") eqn:Hg.
      * destruct (fs (fp e)) as [old|] eqn:Eo; [|discriminate].
        destruct (String.eqb old (transform (fp e) old)) eqn:Eq.
        -- destruct (IH Hnd fs H) as (_ & _ & C).
           apply (Hrest fs H); try reflexivity.
           ++ intros p Hp. apply C. intros Hin. apply Hp. right. exact Hin.
           ++ intros _ _. exists old. split; [reflexivity|].
              rewrite (C (fp e) Hnotin), Eo. apply String.eqb_eq in Eq. rewrite <- Eq.
              reflexivity.
           ++ intros p Hp. apply C. intros Hin. apply Hp. right. exact Hin.
        -- destruct (wok (fp e)); [|discriminate].
           destruct (IH Hnd _ H) as (_ & _ & C).
           apply (Hrest _ H).
           ++ intros p Hp. apply C. intros Hin. apply Hp. right. exact Hin.
           ++ intros e' _ _ _ Hne. unfold store_set.
              rewrite (proj2 (String.eqb_neq _ _) Hne). reflexivity.
           ++ intros _ _. exists old. split; [reflexivity|].
              rewrite (C (fp e) Hnotin). unfold store_set. rewrite String.eqb_refl.
              reflexivity.
           ++ intros p Hp. rewrite C by (intros Hin; apply Hp; right; exact Hin).
              unfold store_set. destruct (String.eqb p (fp e)) eqn:Ep; [|reflexivity].
              apply String.eqb_eq in Ep. exfalso. apply Hp. left. symmetry. exact Ep.
      * destruct (IH Hnd fs H) as (_ & _ & C).
        apply (Hrest fs H); try reflexivity.
        -- intros p Hp. apply C. intros Hin. apply Hp. right. exact Hin.
        -- intros _ Hg'. congruence.
        -- intros p Hp. apply C. intros Hin. apply Hp. right. exact Hin.
Qed.

Definition walk_example_entries : list walk_entry :=
  [{| fp := "./a.go"; is_dir := false; walk_err := false |};
   {| fp := "./doc"; is_dir := true; walk_err := false |};
   {| fp := "./doc/b.go"; is_dir := false; walk_err := false |}].

Definition walk_example_fs : store :=
  fun p => if String.eqb p "./a.go" then Some "import gx/ipfs/QmA/x"
           else if String.eqb p "./doc/b.go" then Some "package doc" else None.

Lemma walk_success_witness :
  let '(fs', err) := walk_simple (fun _ => [("gx/ipfs/QmA/x", "github.com/a/x")])
                       (fun _ => true) walk_example_entries walk_example_fs in
  err = None /\
  (forall e, In e walk_example_entries -> walk_err e = false) /\
  (forall e, In e walk_example_entries -> is_dir e = false ->
     HasSuffix (filepath_Base (fp e)) ".go" = true ->
     exists b, walk_example_fs (fp e) = Some b /\
       fs' (fp e) = Some (rewrite_blob_simple [("gx/ipfs/QmA/x", "github.com/a/x")] b)) /\
  (forall p, ~ In p (map fp walk_example_entries) -> fs' p = walk_example_fs p).
Proof.
  cbv zeta.
  destruct (walk_simple (fun _ => [("gx/ipfs/QmA/x", "github.com/a/x")])
              (fun _ => true) walk_example_entries walk_example_fs) as [fs' err] eqn:E.
  assert (Herr : err = None).
  { vm_compute in E. injection E as _ <-. reflexivity. }
  subst err. split; [reflexivity|].
  apply (walk_success (fun p b => rewrite_blob_simple [("gx/ipfs/QmA/x", "github.com/a/x")] b)
           (fun _ => true) walk_example_entries walk_example_fs fs' E).
  apply (bool_decide_unpack _). vm_compute. exact I.
Defined.

(** A walk in which the callback computes the old content for every Go
    file performs no write at all: it ends without error and leaves the
    tree as it was, even if every write would fail. *)
Theorem walk_no_write (transform : string -> string -> string) (wok : string -> bool)
  (entries : list walk_entry) (fs : store)
  (Hall : forall e, In e entries -> walk_err e = false /\
     (is_dir e = false -> HasSuffix (filepath_Base (fp e)) ".go" = true ->
      exists b, fs (fp e) = Some b /\ transform (fp e) b = b)) :
  walk transform wok entries fs = (fs, None).
Proof.
  induction entries as [|e rest IH]; [reflexivity|].
  assert (IH' : walk transform wok rest fs = (fs, None))
    by (apply IH; intros e' He'; apply Hall; right; exact He').
  destruct (Hall e (or_introl eq_refl)) as [Ee He].
  cbn [walk]. rewrite Ee. destruct (is_dir e) eqn:Ed; [exact IH'|].
  destruct (HasSuffix (filepath_Base (fp e)) ".go") eqn:Hg; [|exact IH'].
  destruct (He eq_refl eq_refl) as (b & Hb & Ht). rewrite Hb, Ht, String.eqb_refl.
  exact IH'.
Qed.

Lemma walk_no_write_witness :
  walk (fun _ b => b) (fun _ => false) walk_example_entries walk_example_fs
  = (walk_example_fs, None).
Proof.
  apply walk_no_write. intros e He. vm_compute in He.
  destruct He as [<-|[<-|[<-|[]]]]; split; try reflexivity; intros Hd Hg;
    try discriminate; eexists; split; reflexivity.
Defined.

(** Simple mode: when no rewrite key occurs in any Go file, the walk
    writes nothing and ends without error. *)
Theorem walk_simple_no_reference (iter : string -> list (string * string))
  (wok : string -> bool) (entries : list walk_entry) (fs : store)
  (Hall : forall e, In e entries -> walk_err e = false /\
     (is_dir e = false -> HasSuffix (filepath_Base (fp e)) ".go" = true ->
      exists b, fs (fp e) = Some b /\
        forall k v, In (k, v) (iter (fp e)) ->
          k <> "" /\ forall j, String.prefix k (drop j b) = false)) :
  walk_simple iter wok entries fs = (fs, None).
Proof.
  unfold walk_simple. apply walk_no_write. intros e He.
  destruct (Hall e He) as [Ee Hgo]. split; [exact Ee|].
  intros Hd Hg. destruct (Hgo Hd Hg) as (b & Hb & Hk).
  exists b. split; [exact Hb|]. apply simple_pass_id. exact Hk.
Qed.

Lemma walk_simple_no_reference_witness :
  walk_simple (fun _ => [("gx/ipfs/QmA/x", "github.com/a/x")]) (fun _ => false)
    walk_example_entries (fun p => if String.eqb p "./doc" then None else Some "package p")
  = ((fun p => if String.eqb p "./doc" then None else Some "package p"), None).
Proof.
  apply walk_simple_no_reference. intros e He. vm_compute in He.
  destruct He as [<-|[<-|[<-|[]]]]; split; try reflexivity; intros Hd Hg;
    try discriminate; eexists; (split; [reflexivity|]);
    intros k v [E|[]]; injection E as <- <-; (split; [discriminate|]);
    intros j; do 12 (destruct j as [|j]; [reflexivity|]); cbn [drop]; try rewrite drop_nil;
    reflexivity.
Defined.

(* ------------------------------------------------------------------ *)
(** ** The conversion loop stops at the first failed operation *)

(** every logged file system operation succeeded *)
Definition ok_log (env : fs_env) (l : list fsop) : Prop :=
  Forall (fun op => fs_ok env op = true) l.

(** from a log of successes, [m] leaves a log in which only the last
    operation may have failed, and none failed if [m] succeeded *)
Definition halts (env : fs_env) {A : Type} (m : M A) : Prop :=
  forall log rw st' r, ok_log env log -> m (log, rw) = (st', r) ->
    ok_log env (removelast (fst st')) /\ (forall a, r = inr a -> ok_log env (fst st')).

Lemma Forall_removelast {X : Type} (P : X -> Prop) (l : list X) :
  Forall P l -> Forall P (removelast l).
Proof.
  induction l as [|x l IH]; intros H; [constructor|].
  destruct l as [|y l]; [constructor|].
  inversion H as [|? ? Hx Hl]; subst.
  change (removelast (x :: y :: l)) with (x :: removelast (y :: l)).
  constructor; [exact Hx|exact (IH Hl)].
Qed.

Lemma halts_ret (env : fs_env) {A : Type} (a : A) : halts env (mret a).
Proof.
  intros log rw st' r Hl E. cbv [mret M_ret] in E. injection E as <- <-.
  split; [apply Forall_removelast, Hl|intros; exact Hl].
Qed.

Lemma halts_bind (env : fs_env) {A B : Type} (m : M A) (k : A -> M B) :
  halts env m -> (forall a, halts env (k a)) -> halts env (mbind k m).
Proof.
  intros Hm Hk log rw st' r Hl E. cbv [mbind M_bind] in E.
  destruct (m (log, rw)) as [[log1 rw1] [e|a]] eqn:Em.
  - injection E as <- <-. split; [exact (proj1 (Hm _ _ _ _ Hl Em))|discriminate].
  - exact (Hk a log1 rw1 st' r (proj2 (Hm _ _ _ _ Hl Em) a eq_refl) E).
Qed.

Lemma halts_exec (env : fs_env) (op : fsop) (msg : string) : halts env (exec env op msg).
Proof.
  intros log rw st' r Hl E. cbv [exec] in E. injection E as <- <-. cbn [fst].
  rewrite removelast_last. split; [exact Hl|].
  intros a Hr. destruct (fs_ok env op) eqn:Eok; [|discriminate].
  apply Forall_app. split; [exact Hl|constructor; [exact Eok|constructor]].
Qed.

Lemma halts_read_dir (env : fs_env) (p : list string) (msg : string) :
  halts env (read_dir env p msg).
Proof.
  intros log rw st' r Hl E. cbv [read_dir] in E. injection E as <- _. cbn [fst].
  split; [apply Forall_removelast, Hl|intros; exact Hl].
Qed.

Lemma halts_set (env : fs_env) (k v : string) : halts env (set_rewrite k v).
Proof.
  intros log rw st' r Hl E. cbv [set_rewrite] in E. injection E as <- <-. cbn [fst].
  split; [apply Forall_removelast, Hl|intros; exact Hl].
Qed.

Lemma halts_forM (env : fs_env) {A : Type} (l : list A) (f : A -> M unit) :
  (forall x, halts env (f x)) -> halts env (forM_ l f).
Proof.
  intros Hf. induction l as [|x l IH]; cbn [forM_]; [apply halts_ret|].
  apply halts_bind; [apply Hf|intros _; exact IH].
Qed.

Create HintDb halts_db.
#[local] Hint Resolve halts_ret halts_exec halts_read_dir halts_set : halts_db.

Lemma convert_simple_halts (env : fs_env) (versions : gmap string nat) (hash path : string) :
  halts env (convert_simple env versions hash path).
Proof.
  unfold convert_simple. destruct (clashes versions path); [apply halts_ret|].
  repeat (apply halts_bind; [auto with halts_db|intros ?]).
  - apply halts_forM. intros dir. apply halts_bind; auto with halts_db.
  - auto with halts_db.
Qed.

Lemma convert_embed_halts (env : fs_env) (penv : probe_env) (workspace root : string)
  (versions : gmap string nat) (hash path : string) :
  halts env (convert_embed env penv workspace root versions hash path).
Proof.
  unfold convert_embed. destruct (clashes versions path).
  - repeat (apply halts_bind; [auto with halts_db|intros ?]). auto with halts_db.
  - apply halts_bind; [|intros _; auto with halts_db].
    destruct (shouldEmbed penv workspace path);
      repeat (apply halts_bind; [auto with halts_db|intros ?]);
      apply halts_forM; intros dir;
      repeat (apply halts_bind; [auto with halts_db|intros ?]); auto with halts_db.
Qed.

(** In both modes the conversion loop attempts nothing after a failed
    file system operation: every logged operation but the last
    succeeded, and all of them did when the loop completed. *)
Theorem conversion_stops_at_failure (env : fs_env) (versions : gmap string nat)
  (order : list (string * string)) :
  (forall st' r, run_simple env versions order ([], ∅) = (st', r) ->
     ok_log env (removelast (fst st')) /\ (r = inr tt -> ok_log env (fst st'))) /\
  (forall penv workspace root st' r,
     run_embed env penv workspace root versions order ([], ∅) = (st', r) ->
     ok_log env (removelast (fst st')) /\ (r = inr tt -> ok_log env (fst st'))).
Proof.
  split.
  - intros st' r H.
    assert (Hh : halts env (run_simple env versions order)).
    { apply halts_forM. intros [hash path]. apply convert_simple_halts. }
    destruct (Hh [] ∅ st' r ltac:(constructor) H) as [H1 H2].
    split; [exact H1|intros ->; exact (H2 tt eq_refl)].
  - intros penv workspace root st' r H.
    assert (Hh : halts env (run_embed env penv workspace root versions order)).
    { apply halts_forM. intros [hash path]. apply convert_embed_halts. }
    destruct (Hh [] ∅ st' r ltac:(constructor) H) as [H1 H2].
    split; [exact H1|intros ->; exact (H2 tt eq_refl)].
Qed.

(** a tree where the rename of QmA's package fails *)
Definition fs_env_badmove : fs_env := {|
  ReadDir := fun _ => Some ["proj"];
  ReadFile := fun _ => Some "{ ... }";
  fs_ok := fun op => match op with Rename _ _ => false | _ => true end;
  json_parse := fun _ => None
|}.

Lemma conversion_stops_at_failure_witness :
  ok_log fs_env_badmove
    (removelast (fst (fst (run_simple fs_env_badmove ∅ [("QmA", "github.com/x/y");
                                                       ("QmB", "github.com/x/z")] ([], ∅))))).
Proof.
  apply (proj1 (conversion_stops_at_failure fs_env_badmove ∅
                  [("QmA", "github.com/x/y"); ("QmB", "github.com/x/z")])
           _ (snd (run_simple fs_env_badmove ∅ [("QmA", "github.com/x/y");
                                                 ("QmB", "github.com/x/z")] ([], ∅)))).
  vm_compute. reflexivity.
Defined.

(* ------------------------------------------------------------------ *)
(** ** What the rewrite map holds *)

Lemma pres_read_dir_bind (P : St -> Prop) (env : fs_env) (p : list string) (msg : string)
  {B : Type} (k : list string -> M B) :
  (forall l, ReadDir env p = Some l -> preserves P (k l)) ->
  preserves P (mbind k (read_dir env p msg)).
Proof.
  intros H st st' r Hst E. cbv [mbind M_bind read_dir] in E.
  destruct (ReadDir env p) as [l|] eqn:Ed.
  - exact (H l eq_refl _ _ _ Hst E).
  - injection E as <- _. exact Hst.
Qed.

(** simple mode: a key gx/ipfs/<hash>/<dir> for a listed entry <dir> of
    a non-clashing package, mapped to the package's canonical path *)
Definition simple_entry (env : fs_env) (versions : gmap string nat)
  (order : list (string * string)) (k v : string) : Prop :=
  exists hash dir dirs, In (hash, v) order /\ clashes versions v = false /\
    ReadDir env (app gxpkgs [hash]) = Some dirs /\ In dir dirs /\
    k = "gx/ipfs/" ++ hash ++ "/" ++ dir.

Lemma map_inv_set (P : string -> string -> Prop) (k v : string) :
  P k v ->
  preserves (fun st : St => forall k' v', snd st !! k' = Some v' -> P k' v') (set_rewrite k v).
Proof.
  intros Hkv. apply pres_set. intros log rw Hst k' v'. cbn [snd].
  destruct (String.eq_dec k' k) as [->|Hne].
  - rewrite lookup_insert_eq. intros E. injection E as <-. exact Hkv.
  - rewrite lookup_insert_ne by congruence. apply Hst.
Qed.

Lemma map_inv_exec (P : string -> string -> Prop) (env : fs_env) (op : fsop) (msg : string) :
  preserves (fun st : St => forall k' v', snd st !! k' = Some v' -> P k' v') (exec env op msg).
Proof. apply pres_exec. intros log rw Hst. exact Hst. Qed.

(** In the simple mode, whether the loop completed or not, every entry
    of the rewrite map sends gx/ipfs/<hash>/<dir> to the canonical path
    of a non-clashing package <hash>, <dir> being an entry of its
    directory. *)
Theorem simple_rewrite_entries (env : fs_env) (versions : gmap string nat)
  (order : list (string * string)) (st' : St) (r : string + unit)
  (H : run_simple env versions order ([], ∅) = (st', r)) :
  forall k v, snd st' !! k = Some v -> simple_entry env versions order k v.
Proof.
  assert (Hp : preserves (fun st : St => forall k v, snd st !! k = Some v ->
                            simple_entry env versions order k v)
                 (run_simple env versions order)).
  { unfold run_simple. apply pres_forM. intros [hash path] Hin. unfold convert_simple.
    destruct (clashes versions path) eqn:Ec; [apply pres_ret|].
    apply pres_bind; [apply map_inv_exec|intros _].
    apply pres_read_dir_bind. intros dirs Hd.
    apply pres_bind; [|intros _; apply map_inv_exec].
    apply pres_forM. intros dir Hdir.
    apply pres_bind; [apply map_inv_exec|intros _].
    apply map_inv_set. exists hash, dir, dirs. repeat split; assumption. }
  apply (Hp ([], ∅) st' r); [|exact H].
  intros k v E. cbn [snd] in E. rewrite lookup_empty in E. discriminate.
Qed.

Lemma simple_rewrite_entries_witness :
  snd (fst (run_simple fs_env_pkgs ∅ [("QmA", "github.com/x/y")] ([], ∅))) !! "gx/ipfs/QmA/proj"
  = Some "github.com/x/y" /\
  simple_entry fs_env_pkgs ∅ [("QmA", "github.com/x/y")] "gx/ipfs/QmA/proj" "github.com/x/y".
Proof.
  split; [vm_compute; reflexivity|].
  apply (simple_rewrite_entries fs_env_pkgs ∅ [("QmA", "github.com/x/y")]
           (fst (run_simple fs_env_pkgs ∅ [("QmA", "github.com/x/y")] ([], ∅)))
           (snd (run_simple fs_env_pkgs ∅ [("QmA", "github.com/x/y")] ([], ∅))));
    vm_compute; reflexivity.
Defined.

(** embedding mode: the three kinds of entries the loop writes *)
Definition embed_entry (env : fs_env) (penv : probe_env) (workspace root : string)
  (versions : gmap string nat) (order : list (string * string)) (k v : string) : Prop :=
  exists hash path, In (hash, path) order /\
  ((clashes versions path = true /\ k = "gx/ipfs/" ++ hash /\
    v = root ++ "/gxlibs/ipfs/" ++ hash) \/
   (clashes versions path = false /\
    exists dir dirs, ReadDir env (app gxpkgs [hash]) = Some dirs /\ In dir dirs /\
    ((k = "gx/ipfs/" ++ hash ++ "/" ++ dir /\
      v = (if shouldEmbed penv workspace path then root ++ "/gxlibs/" ++ path else path)) \/
     (shouldEmbed penv workspace path = true /\ k = path /\ v = root ++ "/gxlibs/" ++ path)))).

(** In the embedding mode, every entry of the rewrite map is one of:
    gx/ipfs/<hash> to <root>/gxlibs/ipfs/<hash> for a clashing package;
    gx/ipfs/<hash>/<dir> to <root>/gxlibs/<path> or to <path>, as the
    probe decided, for a non-clashing one; or, for a package the probe
    embedded, its canonical path <path> itself to <root>/gxlibs/<path>. *)
Theorem embed_rewrite_entries (env : fs_env) (penv : probe_env) (workspace root : string)
  (versions : gmap string nat) (order : list (string * string)) (st' : St)
  (r : string + unit)
  (H : run_embed env penv workspace root versions order ([], ∅) = (st', r)) :
  forall k v, snd st' !! k = Some v ->
    embed_entry env penv workspace root versions order k v.
Proof.
  assert (Hp : preserves (fun st : St => forall k v, snd st !! k = Some v ->
                            embed_entry env penv workspace root versions order k v)
                 (run_embed env penv workspace root versions order)).
  { unfold run_embed. apply pres_forM. intros [hash path] Hin. unfold convert_embed.
    destruct (clashes versions path) eqn:Ec.
    - apply pres_bind; [apply map_inv_exec|intros _].
      apply pres_bind; [apply map_inv_exec|intros _].
      apply map_inv_set. exists hash, path. split; [exact Hin|].
      left. repeat split; assumption.
    - apply pres_bind; [|intros _; apply map_inv_exec].
      destruct (shouldEmbed penv workspace path) eqn:Es.
      + apply pres_bind; [apply map_inv_exec|intros _].
        apply pres_read_dir_bind. intros dirs Hd.
        apply pres_forM. intros dir Hdir.
        apply pres_bind; [apply map_inv_exec|intros _].
        apply pres_bind; [apply map_inv_set|intros _; apply map_inv_set];
          exists hash, path; (split; [exact Hin|]); right; (split; [exact Ec|]);
          exists dir, dirs; (split; [exact Hd|split; [exact Hdir|]]).
        * left. rewrite Es. split; reflexivity.
        * right. split; [exact Es|split; reflexivity].
      + apply pres_bind; [apply map_inv_exec|intros _].
        apply pres_read_dir_bind. intros dirs Hd.
        apply pres_forM. intros dir Hdir.
        apply pres_bind; [apply map_inv_exec|intros _].
        apply map_inv_set. exists hash, path. split; [exact Hin|]. right.
        split; [exact Ec|]. exists dir, dirs. split; [exact Hd|split; [exact Hdir|]].
        left. rewrite Es. split; reflexivity. }
  apply (Hp ([], ∅) st' r); [|exact H].
  intros k v E. cbn [snd] in E. rewrite lookup_empty in E. discriminate.
Qed.

Lemma embed_rewrite_entries_witness :
  snd (fst clash_run_embed) !! "gx/ipfs/QmA" = Some "github.com/me/proj/gxlibs/ipfs/QmA" /\
  embed_entry (fs_env_spec (JObj [])) (probe_env_status 200) "/tmp/ws" "github.com/me/proj"
    clash_versions clash_order "gx/ipfs/QmA" "github.com/me/proj/gxlibs/ipfs/QmA".
Proof.
  split; [vm_compute; reflexivity|].
  apply (embed_rewrite_entries (fs_env_spec (JObj [])) (probe_env_status 200) "/tmp/ws"
           "github.com/me/proj" clash_versions clash_order (fst clash_run_embed)
           (snd clash_run_embed)); vm_compute; reflexivity.
Defined.

(* ------------------------------------------------------------------ *)
(** ** Non-clashing packages are moved and mapped *)

Lemma bind_inr {A B : Type} (m : M A) (k : A -> M B) (st st' : St) (b : B) :
  mbind k m st = (st', inr b) -> exists st1 a, m st = (st1, inr a) /\ k a st1 = (st', inr b).
Proof.
  cbv [mbind M_bind]. destruct (m st) as [st1 [e|a]]; intros H; [discriminate|].
  exists st1, a. split; [reflexivity|exact H].
Qed.

(** the operation [op] was logged and [key] is mapped to [v] *)
Definition keeps_map (key v : string) (op : fsop) (st : St) : Prop :=
  In op (fst st) /\ snd st !! key = Some v.

Lemma keeps_exec (key v : string) (op0 : fsop) (env : fs_env) (op : fsop) (msg : string) :
  preserves (keeps_map key v op0) (exec env op msg).
Proof.
  apply pres_exec. intros log rw [Hl Hr]. split; [apply in_or_app; left; exact Hl|exact Hr].
Qed.

Lemma keeps_set (key v : string) (op0 : fsop) (k v' : string) :
  k <> key \/ v' = v -> preserves (keeps_map key v op0) (set_rewrite k v').
Proof.
  intros Hk. apply pres_set. intros log rw [Hl Hr]. split; [exact Hl|]. cbn [snd].
  destruct (String.eq_dec k key) as [->|Hne].
  - destruct Hk as [Hk| ->]; [contradiction|apply lookup_insert_eq].
  - rewrite lookup_insert_ne by exact Hne. exact Hr.
Qed.

Lemma gx_key_ne (h hash d dir : string) :
  has_char slash h = false -> has_char slash hash = false -> h <> hash ->
  "gx/ipfs/" ++ h ++ "/" ++ d <> "gx/ipfs/" ++ hash ++ "/" ++ dir.
Proof.
  intros Hh Hhash Hne E. apply sapp_cancel_l in E.
  change ("/" ++ d) with (String slash d) in E.
  change ("/" ++ dir) with (String slash dir) in E.
  apply slash_free_split in E; [congruence|exact Hh|exact Hhash].
Qed.

Lemma gx_key_ne_hash (h hash dir : string) :
  has_char slash h = false -> "gx/ipfs/" ++ h <> "gx/ipfs/" ++ hash ++ "/" ++ dir.
Proof.
  intros Hh E. apply sapp_cancel_l in E. rewrite E in Hh.
  change ("/" ++ dir) with (String slash dir) in Hh.
  rewrite has_slash_mid in Hh. discriminate.
Qed.

Lemma convert_simple_keeps (env : fs_env) (versions : gmap string nat)
  (hash dir h p v : string) (op0 : fsop) :
  h <> hash -> has_char slash h = false -> has_char slash hash = false ->
  preserves (keeps_map ("gx/ipfs/" ++ hash ++ "/" ++ dir) v op0)
    (convert_simple env versions h p).
Proof.
  intros Hne Hh Hhash. unfold convert_simple.
  destruct (clashes versions p); [apply pres_ret|].
  apply pres_bind; [apply keeps_exec|intros _].
  apply pres_bind; [apply pres_read_dir|intros dirs].
  apply pres_bind; [|intros _; apply keeps_exec].
  apply pres_forM. intros d _.
  apply pres_bind; [apply keeps_exec|intros _].
  apply keeps_set. left. exact (gx_key_ne h hash d dir Hh Hhash Hne).
Qed.

Lemma convert_embed_keeps (env : fs_env) (penv : probe_env) (workspace root : string)
  (versions : gmap string nat) (hash dir h p v : string) (op0 : fsop) :
  h <> hash -> has_char slash h = false -> has_char slash hash = false ->
  p <> "gx/ipfs/" ++ hash ++ "/" ++ dir ->
  preserves (keeps_map ("gx/ipfs/" ++ hash ++ "/" ++ dir) v op0)
    (convert_embed env penv workspace root versions h p).
Proof.
  intros Hne Hh Hhash Hp. unfold convert_embed.
  destruct (clashes versions p).
  - apply pres_bind; [apply keeps_exec|intros _].
    apply pres_bind; [apply keeps_exec|intros _].
    apply keeps_set. left. exact (gx_key_ne_hash h hash dir Hh).
  - apply pres_bind; [|intros _; apply keeps_exec].
    destruct (shouldEmbed penv workspace p).
    + apply pres_bind; [apply keeps_exec|intros _].
      apply pres_bind; [apply pres_read_dir|intros dirs].
      apply pres_forM. intros d _.
      apply pres_bind; [apply keeps_exec|intros _].
      apply pres_bind; [apply keeps_set|intros _; apply keeps_set]; left;
        [exact (gx_key_ne h hash d dir Hh Hhash Hne)|exact Hp].
    + apply pres_bind; [apply keeps_exec|intros _].
      apply pres_bind; [apply pres_read_dir|intros dirs].
      apply pres_forM. intros d _.
      apply pres_bind; [apply keeps_exec|intros _].
      apply keeps_set. left. exact (gx_key_ne h hash d dir Hh Hhash Hne).
Qed.

Lemma nodup_later (order l1 l2 : list (string * string)) (hash path h p : string) :
  NoDup (map fst order) -> order = app l1 ((hash, path) :: l2) -> In (h, p) l2 -> h <> hash.
Proof.
  intros Hnd Eo Hhp ->. rewrite Eo, map_app in Hnd. cbn [map] in Hnd.
  apply NoDup_app in Hnd as (_ & _ & Hnd). apply NoDup_cons in Hnd as [Hn _].
  apply Hn. apply list_elem_of_In. exact (in_map fst _ _ Hhp).
Qed.

(** one entry of a completed [for _, dir := range dirs] loop: its rename
    was logged and its key set, and later entries keep both *)
Lemma forM_dir_keeps (dirs : list string) (dir key v : string) (op0 : fsop)
  (f : string -> M unit) (st st' : St) :
  forM_ dirs f st = (st', inr tt) -> In dir dirs ->
  (forall stA stB, f dir stA = (stB, inr tt) -> keeps_map key v op0 stB) ->
  (forall d, preserves (keeps_map key v op0) (f d)) ->
  keeps_map key v op0 st'.
Proof.
  intros H Hdir Hf Hpres.
  destruct (forM_split _ _ dir _ _ H Hdir) as (d1 & d2 & sA & sB & _ & HA & HB).
  refine (pres_forM _ d2 _ _ _ _ _ (Hf _ _ HA) HB).
  intros d _. apply Hpres.
Qed.

(** A completed conversion moves every entry <dir> of a non-clashing
    package <hash> to the package's place and maps gx/ipfs/<hash>/<dir>
    to it: vendor/<path> and <path> in the simple mode; in the embedding
    mode gxlibs/<path> and <root>/gxlibs/<path> when the probe says Embed,
    vendor/<path> and <path> otherwise. *)
Theorem converted_members (env : fs_env) (penv : probe_env) (workspace root : string)
  (versions : gmap string nat) (order : list (string * string))
  (hash path dir : string) (dirs : list string)
  (Hnd : NoDup (map fst order))
  (Hslash : forall h p, In (h, p) order -> has_char slash h = false)
  (Hin : In (hash, path) order) (Hcl : clashes versions path = false)
  (Hd : ReadDir env (app gxpkgs [hash]) = Some dirs) (Hdir : In dir dirs) :
  (forall st', run_simple env versions order ([], ∅) = (st', inr tt) ->
     In (Rename (app gxpkgs [hash; dir]) ["vendor"; path]) (fst st') /\
     snd st' !! ("gx/ipfs/" ++ hash ++ "/" ++ dir) = Some path) /\
  (forall st', (forall h p, In (h, p) order -> p <> "gx/ipfs/" ++ hash ++ "/" ++ dir) ->
     run_embed env penv workspace root versions order ([], ∅) = (st', inr tt) ->
     In (Rename (app gxpkgs [hash; dir])
           [if shouldEmbed penv workspace path then "gxlibs" else "vendor"; path]) (fst st') /\
     snd st' !! ("gx/ipfs/" ++ hash ++ "/" ++ dir)
     = Some (if shouldEmbed penv workspace path then root ++ "/gxlibs/" ++ path else path)).
Proof.
  pose proof (Hslash hash path Hin) as Hhash.
  split.
  - intros st' Hrun. unfold run_simple in Hrun.
    destruct (forM_split _ _ (hash, path) _ _ Hrun Hin) as (l1 & l2 & stA & stB & Eo & HA & HB).
    change (convert_simple env versions hash path stA = (stB, inr tt)) in HA.
    set (key := "gx/ipfs/" ++ hash ++ "/" ++ dir).
    set (op0 := Rename (app gxpkgs [hash; dir]) ["vendor"; path]).
    assert (HstB : keeps_map key path op0 stB).
    { unfold convert_simple in HA. rewrite Hcl in HA.
      apply bind_inr in HA as (st1 & [] & _ & HA).
      apply bind_inr in HA as (st2 & l & Hrd & HA).
      cbv [read_dir] in Hrd. rewrite Hd in Hrd. injection Hrd as <- <-.
      apply bind_inr in HA as (st3 & [] & HF & HR).
      refine (keeps_exec key path op0 env _ _ _ _ _ _ HR).
      apply (forM_dir_keeps dirs dir key path op0 _ st1 st3 HF Hdir).
      + intros [logA rwA] sB Hf. cbv beta in Hf.
        apply bind_inr in Hf as (s1 & [] & Hex & Hset).
        cbv [exec] in Hex. injection Hex as <- _.
        cbv [set_rewrite] in Hset. injection Hset as <-. split.
        * cbn [fst]. apply in_or_app. right. left. reflexivity.
        * cbn [snd]. apply lookup_insert_eq.
      + intros d. cbv beta. apply pres_bind; [apply keeps_exec|intros _].
        apply keeps_set. destruct (String.eq_dec d dir) as [->|Hne]; [right; reflexivity|].
        left. intros E. apply sapp_cancel_l in E. apply sapp_cancel_l in E.
        change ("/" ++ d) with (String slash d) in E.
        change ("/" ++ dir) with (String slash dir) in E.
        injection E as E. exact (Hne E). }
    refine (pres_forM _ l2 _ _ _ _ _ HstB HB).
    intros [h p] Hhp. cbn beta iota.
    apply convert_simple_keeps;
      [exact (nodup_later order l1 l2 hash path h p Hnd Eo Hhp)|
       apply (Hslash h p); rewrite Eo; apply in_or_app; right; right; exact Hhp|
       exact Hhash].
  - intros st' Hnotgx Hrun. unfold run_embed in Hrun.
    destruct (forM_split _ _ (hash, path) _ _ Hrun Hin) as (l1 & l2 & stA & stB & Eo & HA & HB).
    change (convert_embed env penv workspace root versions hash path stA = (stB, inr tt)) in HA.
    set (key := "gx/ipfs/" ++ hash ++ "/" ++ dir).
    set (v := if shouldEmbed penv workspace path then root ++ "/gxlibs/" ++ path else path).
    set (op0 := Rename (app gxpkgs [hash; dir])
                  [if shouldEmbed penv workspace path then "gxlibs" else "vendor"; path]).
    assert (Hdk : forall d, d <> dir -> "gx/ipfs/" ++ hash ++ "/" ++ d <> key).
    { intros d Hne E. apply sapp_cancel_l in E. apply sapp_cancel_l in E.
      change ("/" ++ d) with (String slash d) in E.
      change ("/" ++ dir) with (String slash dir) in E.
      injection E as E. exact (Hne E). }
    assert (HstB : keeps_map key v op0 stB).
    { unfold convert_embed in HA. rewrite Hcl in HA.
      apply bind_inr in HA as (st0 & [] & HA & HR).
      refine (keeps_exec key v op0 env _ _ _ _ _ _ HR).
      subst v op0. destruct (shouldEmbed penv workspace path).
      - apply bind_inr in HA as (st1 & [] & _ & HA).
        apply bind_inr in HA as (st2 & l & Hrd & HF).
        cbv [read_dir] in Hrd. rewrite Hd in Hrd. injection Hrd as <- <-.
        apply (forM_dir_keeps dirs dir key _ _ _ st1 st0 HF Hdir).
        + intros [logA rwA] sB Hf. cbv beta in Hf.
          apply bind_inr in Hf as (s1 & [] & Hex & Hf).
          apply bind_inr in Hf as (s2 & [] & Hset1 & Hset2).
          cbv [exec] in Hex. injection Hex as <- _.
          cbv [set_rewrite] in Hset1. injection Hset1 as <-.
          cbv [set_rewrite] in Hset2. injection Hset2 as <-. split.
          * cbn [fst]. apply in_or_app. right. left. reflexivity.
          * cbn [snd]. rewrite lookup_insert_ne by exact (Hnotgx hash path Hin).
            apply lookup_insert_eq.
        + intros d. cbv beta. apply pres_bind; [apply keeps_exec|intros _].
          apply pres_bind; [apply keeps_set|intros _; apply keeps_set; left;
                                               exact (Hnotgx hash path Hin)].
          destruct (String.eq_dec d dir) as [->|Hne]; [right; reflexivity|].
          left. exact (Hdk d Hne).
      - apply bind_inr in HA as (st1 & [] & _ & HA).
        apply bind_inr in HA as (st2 & l & Hrd & HF).
        cbv [read_dir] in Hrd. rewrite Hd in Hrd. injection Hrd as <- <-.
        apply (forM_dir_keeps dirs dir key _ _ _ st1 st0 HF Hdir).
        + intros [logA rwA] sB Hf. cbv beta in Hf.
          apply bind_inr in Hf as (s1 & [] & Hex & Hset).
          cbv [exec] in Hex. injection Hex as <- _.
          cbv [set_rewrite] in Hset. injection Hset as <-. split.
          * cbn [fst]. apply in_or_app. right. left. reflexivity.
          * cbn [snd]. apply lookup_insert_eq.
        + intros d. cbv beta. apply pres_bind; [apply keeps_exec|intros _].
          apply keeps_set. destruct (String.eq_dec d dir) as [->|Hne]; [right; reflexivity|].
          left. exact (Hdk d Hne). }
    refine (pres_forM _ l2 _ _ _ _ _ HstB HB).
    intros [h p] Hhp. cbn beta iota.
    apply convert_embed_keeps;
      [exact (nodup_later order l1 l2 hash path h p Hnd Eo Hhp)|
       apply (Hslash h p); rewrite Eo; apply in_or_app; right; right; exact Hhp|
       exact Hhash|].
    apply (Hnotgx h p). rewrite Eo. apply in_or_app. right. right. exact Hhp.
Qed.

Definition conv_order : list (string * string) :=
  [("QmA", "github.com/x/y"); ("QmC", "golang.org/x/z")].

Lemma converted_members_witness :
  snd (fst (run_simple fs_env_pkgs ∅ conv_order ([], ∅))) !! ("gx/ipfs/" ++ "QmC" ++ "/" ++ "proj")
  = Some "golang.org/x/z".
Proof.
  destruct (converted_members fs_env_pkgs (probe_env_status 200) "/tmp/ws" "github.com/me/proj"
              ∅ conv_order "QmC" "golang.org/x/z" "proj" ["proj"]) as [H _].
  - apply (bool_decide_unpack _). vm_compute. exact I.
  - intros h p Hhp. vm_compute in Hhp.
    destruct Hhp as [E|[E|[]]]; injection E as <- _; reflexivity.
  - right. left. reflexivity.
  - vm_compute. reflexivity.
  - reflexivity.
  - left. reflexivity.
  - apply (H (fst (run_simple fs_env_pkgs ∅ conv_order ([], ∅)))). vm_compute. reflexivity.
Defined.
